(** * plugin_restaurants: the dialog handler of restaurants.go

    A shallow embedding of [Run], [FollowUp], [searchYelp], [client.get] and
    the four accessors [getRating], [getURL], [getPhone], [getAddress],
    followed by the properties of the dialog state machine.

    Modelling conventions.
    - Go strings are byte strings: Rocq [string].  [strings.Fields],
      [strings.TrimRight] and [strings.ToLower] are embedded as they act on
      ASCII text (bytes below 0x80), which is where every keyword of the
      follow-up switch lives.
    - [m.State] is a [map[string]interface{}] that always carries the four
      keys written by [Run]; it is the record [State].  The value under
      ["offset"] is a [float64] that only ever holds [float64(0)] or
      [float64(offI + 1)], an integer: it is the [Z] that the float holds.
      The float operations on it round as binary64 does ([Float64.round]:
      exact up to 2^53, ties to even beyond).  [int(x)] is embedded where
      it is exact, for [x] below 2^63; beyond, Go leaves the result to the
      implementation, and the statements about a search carry the bound.
    - The state is the one the host hands to a handler: the value under
      ["businesses"] is the nil interface ([None]) or a [[]interface{}]
      ([Some]), whose elements are read back under the JSON names of
      [yelpResp] (["display_phone"], ["mobile_url"], ["Rating"],
      ["Location"], ["display_address"]); the type assertions on them
      succeed.  What [searchYelp] assigns, a slice of structs, is kept in
      that same form: the re-reading between two turns is the host's.  A
      business without a ["display_address"] is one with no lines.
    - The run-time failures of Go (index out of range, nil dereference, a
      failed type assertion) are the [Panic] results.
    - The Yelp endpoint, the location resolver and the phrase pickers of the
      host's [language] package are collaborators: their answers come from
      an environment [Env], and the calls made to them are logged in
      [World]. *)

From Stdlib Require Import ZArith List Bool Ascii String Lia.
From Stdlib Require Import DecimalString DecimalZ PrimFloat.
Import ListNotations.

Local Open Scope string_scope.
Local Open Scope Z_scope.

(** ** Results of Go code that can panic *)

Inductive panic : Type :=
| IndexOutOfRange
| NilDereference
| TypeAssertion.

Inductive result (A : Type) : Type :=
| Val (a : A)
| Panic (p : panic).

Arguments Val {A} a.
Arguments Panic {A} p.

Definition bind {A B : Type} (r : result A) (k : A -> result B) : result B :=
  match r with
  | Val a => k a
  | Panic p => Panic p
  end.

Notation "x <- r ;; k" := (bind r (fun x => k))
  (at level 61, r at next level, right associativity).
Notation "' pat <- r ;; k" := (bind r (fun x => match x with pat => k end))
  (at level 61, pat pattern, r at next level, right associativity).

(** [l[i]] on a Go slice with an [int] index. *)
Definition index {A : Type} (l : list A) (i : Z) : result A :=
  if (i <? 0) || (Z.of_nat (List.length l) <=? i) then Panic IndexOutOfRange
  else match nth_error l (Z.to_nat i) with
       | Some x => Val x
       | None => Panic IndexOutOfRange
       end.

(** ** [float64] values that hold integers *)

Module Float64.

(** The integer [z] as the nearest binary64 value, ties to even: [z] itself
    when its magnitude has at most 53 bits, else [z] with the low bits
    rounded away. *)
Definition round (z : Z) : Z :=
  let m := Z.abs z in
  let e := Z.log2 m - 52 in
  if e <=? 0 then z
  else
    let q := Z.shiftr m e in
    let r := m - Z.shiftl q e in
    let half := Z.shiftl 1 (e - 1) in
    let q' := if (half <? r) || ((r =? half) && Z.odd q) then q + 1 else q in
    Z.sgn z * Z.shiftl q' e.

(** [x + y] on two floats that hold integers. *)
Definition add (x y : Z) : Z := round (x + y).

(** [float64(i)] for an [int]. *)
Definition ofInt (i : Z) : Z := round i.

(** [int(x)], for [x] below 2^63. *)
Definition toInt (x : Z) : Z := x.

End Float64.

(** ** The [strings] functions used by [FollowUp] *)

Module Strings.

Definition len (s : string) : Z := Z.of_nat (String.length s).

(** ASCII white space, as [unicode.IsSpace] sees it: tab, line feed,
    vertical tab, form feed, carriage return, space. *)
Definition isSpace (c : ascii) : bool :=
  let n := nat_of_ascii c in
  ((9 <=? n) && (n <=? 13))%nat || (n =? 32)%nat.

Fixpoint fieldsFrom (cur : string) (s : string) : list string :=
  match s with
  | EmptyString =>
      match cur with
      | EmptyString => []
      | _ => [cur]
      end
  | String c rest =>
      if isSpace c then
        match cur with
        | EmptyString => fieldsFrom EmptyString rest
        | _ => cur :: fieldsFrom EmptyString rest
        end
      else fieldsFrom (cur ++ String c EmptyString) rest
  end.

(** [strings.Fields]: the maximal runs of non-space bytes, in order. *)
Definition Fields (s : string) : list string := fieldsFrom EmptyString s.

Fixpoint contains (cutset : string) (c : ascii) : bool :=
  match cutset with
  | EmptyString => false
  | String d rest => Ascii.eqb c d || contains rest c
  end.

(** [strings.TrimRight]: drop every trailing byte that is in [cutset]. *)
Fixpoint TrimRight (s cutset : string) : string :=
  match s with
  | EmptyString => EmptyString
  | String c rest =>
      match TrimRight rest cutset with
      | EmptyString =>
          if contains cutset c then EmptyString else String c EmptyString
      | kept => String c kept
      end
  end.

Definition toLowerByte (c : ascii) : ascii :=
  let n := nat_of_ascii c in
  if ((65 <=? n) && (n <=? 90))%nat then ascii_of_nat (n + 32) else c.

(** [strings.ToLower] on ASCII text. *)
Fixpoint ToLower (s : string) : string :=
  match s with
  | EmptyString => EmptyString
  | String c rest => String (toLowerByte c) (ToLower rest)
  end.

(** [fmt.Sprintf("%.0f", x)] for a [float64] holding the integer [z]. *)
Definition sprintf_0f (z : Z) : string := NilEmpty.string_of_int (Z.to_int z).

End Strings.

(** ** Data model *)

(** The host's [dt.Location], of which only the name is read. *)
Module dt.
Record Location : Type := {
  Name : string
}.
End dt.

(** The anonymous [Location] struct of a business. *)
Record BusinessLocation : Type := {
  City : string;
  DisplayAddress : list string
}.

(** An element of [yelpResp.Businesses]. *)
Record Business : Type := {
  Name : string;
  ImageURL : string;
  MobileURL : string;
  DisplayPhone : string;
  Distance : Z;
  Rating : float;
  Location : BusinessLocation
}.

Record yelpResp : Type := {
  Businesses : list Business
}.

(** [m.State]. *)
Record State : Type := {
  query : string;
  location : string;
  offset : Z;
  businesses : option (list Business)
}.

Record StructuredInput : Type := {
  Commands : list string;
  Objects : list string
}.

(** The fields of [dt.Msg] that the plugin touches. *)
Record Msg : Type := {
  User : Z;
  Sentence : string;
  SI : StructuredInput;
  MState : State
}.

Definition setState (m : Msg) (s : State) : Msg :=
  {| User := User m; Sentence := Sentence m; SI := SI m; MState := s |}.

Definition setSentence (m : Msg) (s : string) : Msg :=
  {| User := User m; Sentence := s; SI := SI m; MState := MState m |}.

Definition setQuery (m : Msg) (q : string) : Msg :=
  setState m {| query := q; location := location (MState m);
                offset := offset (MState m);
                businesses := businesses (MState m) |}.

Definition setLocation (m : Msg) (loc : string) : Msg :=
  setState m {| query := query (MState m); location := loc;
                offset := offset (MState m);
                businesses := businesses (MState m) |}.

Definition setOffset (m : Msg) (k : Z) : Msg :=
  setState m {| query := query (MState m); location := location (MState m);
                offset := k;
                businesses := businesses (MState m) |}.

Definition setBusinesses (m : Msg) (bs : option (list Business)) : Msg :=
  setState m {| query := query (MState m); location := location (MState m);
                offset := offset (MState m);
                businesses := bs |}.

(** ** Collaborators *)

Inductive error : Type :=
| ErrTransport
| ErrStatus (code : Z)
| ErrDecode
| ErrLocation.

(** [url.Values]. *)
Definition Values : Type := list (string * list string).

(** What the oauth client's [Get] yields: a transport error, or a response
    with its status code and its body, given as what [json] decodes it to
    ([None] when decoding fails). *)
Inductive httpReply : Type :=
| NoReply
| Reply (StatusCode : Z) (Body : option yelpResp).

(** The answer of [knowledge.GetLocation]: [(loc, question, err)]. *)
Record located : Type := {
  loc : option dt.Location;
  question : string;
  lerr : option error
}.

Record Env : Type := {
  (** the reply to a request, given how many requests came before it *)
  yelp : nat -> string -> Values -> httpReply;
  (** the answer to a location lookup, given how many came before it *)
  GetLocation : nat -> Z -> located;
  (** [language.Positive()] and [language.Welcome()] *)
  Positive : string;
  Welcome : string;
  (** [fmt.Sprintf("%.1f", x)] *)
  sprintf_1f : float -> string
}.

(** The calls made to the collaborators so far, oldest first. *)
Record World : Type := {
  requests : list (string * Values);
  lookups : nat
}.

(** What a handler reads and writes: the message [m], the string behind
    [resp] and the collaborators' log. *)
Record Ctx : Type := {
  msg : Msg;
  resp : string;
  world : World
}.

Definition setMsg (c : Ctx) (m : Msg) : Ctx :=
  {| msg := m; resp := resp c; world := world c |}.

Definition setResp (c : Ctx) (s : string) : Ctx :=
  {| msg := msg c; resp := s; world := world c |}.

Definition setWorld (c : Ctx) (w : World) : Ctx :=
  {| msg := msg c; resp := resp c; world := w |}.

(** A handler returns its [error] (nil is [None]) and leaves [m], [*resp]
    and the log as the [Ctx], unless it panics. *)
Definition handled : Type := result (option error * Ctx).

(** ** Accessors *)

(** [r.State["businesses"].([]interface{})] *)
Definition stateBusinesses (r : Msg) : result (list Business) :=
  match businesses (MState r) with
  | Some bs => Val bs
  | None => Panic TypeAssertion
  end.

Section Handlers.

Variable E : Env.

Definition getRating (r : Msg) (offset : Z) : result string :=
  bs <- stateBusinesses r;;
  firstBusiness <- index bs offset;;
  Val (sprintf_1f E (Rating firstBusiness)).

Definition getURL (r : Msg) (offset : Z) : result string :=
  bs <- stateBusinesses r;;
  firstBusiness <- index bs offset;;
  Val (MobileURL firstBusiness).

Definition getPhone (r : Msg) (offset : Z) : result string :=
  bs <- stateBusinesses r;;
  firstBusiness <- index bs offset;;
  Val (DisplayPhone firstBusiness).

Definition getAddress (r : Msg) (offset : Z) : result string :=
  bs <- stateBusinesses r;;
  firstBusiness <- index bs offset;;
  let dispAddr := DisplayAddress (Location firstBusiness) in
  if 1 <? Z.of_nat (List.length dispAddr) then
    str1 <- index dispAddr 0;;
    str2 <- index dispAddr 1;;
    Val (str1 ++ " in " ++ str2)
  else index dispAddr 0.

(** ** The search client *)

(** [client.get]: one request, logged; an error for a transport failure,
    a status other than 200 or a body that does not decode. *)
Definition get (w : World) (urlStr : string) (params : Values)
  : (error + yelpResp) * World :=
  let w' := {| requests := requests w ++ [(urlStr, params)];
               lookups := lookups w |} in
  match yelp E (List.length (requests w)) urlStr params with
  | NoReply => (inl ErrTransport, w')
  | Reply StatusCode Body =>
      if negb (StatusCode =? 200) then (inl (ErrStatus StatusCode), w')
      else match Body with
           | None => (inl ErrDecode, w')
           | Some v => (inr v, w')
           end
  end.

Definition searchForm (st : State) : Values :=
  [("term", [query st]);
   ("location", [location st]);
   ("limit", [Strings.sprintf_0f (Float64.add (offset st) 1)])].

Definition searchYelp (c : Ctx) : handled :=
  let m := msg c in
  let off := offset (MState m) in
  let form := searchForm (MState m) in
  let '(r, w) := get (world c) "http://api.yelp.com/v2/search" form in
  match r with
  | inl _ => Val (None, setWorld c w)
  | inr data =>
      let m := setBusinesses m (Some (Businesses data)) in
      let c := setWorld (setMsg c m) w in
      if Z.of_nat (List.length (Businesses data)) =? 0 then
        Val (None, setResp c "I couldn't find any places like that nearby.")
      else
        let offI := Float64.toInt off in
        if Z.of_nat (List.length (Businesses data)) <=? offI then
          Val (None, setResp c "That's all I could find.")
        else
          b <- index (Businesses data) offI;;
          addr <- (if 0 <? Z.of_nat (List.length (DisplayAddress (Location b)))
                   then index (DisplayAddress (Location b)) 0
                   else Val "");;
          if offI =? 0 then
            Val (None, setResp c ("Ok. How does this place look? " ++ Name b
                                  ++ " at " ++ addr))
          else
            Val (None, setResp c ("What about " ++ Name b ++ " instead?"))
  end.

(** ** FollowUp *)

Definition isCase (w : string) (labels : list string) : bool :=
  existsb (String.eqb w) labels.

(** The body of the loop over [words], up to the test on [len( *resp)]. *)
Definition followUpWord (offI : Z) (w : string) (c : Ctx) : handled :=
  let w := Strings.TrimRight w ").,;?!:" in
  let k := Strings.ToLower w in
  if isCase k ["rated"; "rating"; "review"; "recommend"; "recommended"] then
    s <- getRating (msg c) offI;;
    Val (None, setResp c ("It has a " ++ s ++ " star review on Yelp"))
  else if isCase k ["number"; "phone"] then
    s <- getPhone (msg c) offI;;
    Val (None, setResp c s)
  else if isCase k ["call"] then
    s <- getPhone (msg c) offI;;
    Val (None, setResp c ("You can reach them here: " ++ s))
  else if isCase k ["information"; "info"] then
    s <- getURL (msg c) offI;;
    Val (None, setResp c ("Here's some more info: " ++ s))
  else if isCase k ["where"; "location"; "address"; "direction";
                    "directions"; "addr"] then
    s <- getAddress (msg c) offI;;
    Val (None, setResp c ("It's at " ++ s))
  else if isCase k ["pictures"; "pic"; "pics"] then
    s <- getURL (msg c) offI;;
    Val (None, setResp c ("I found some pics here: " ++ s))
  else if isCase k ["menu"; "have"] then
    s <- getURL (msg c) offI;;
    Val (None, setResp c ("Yelp might have a menu... " ++ s))
  else if isCase k ["not"; "else"; "no"; "anything"; "something"] then
    searchYelp (setMsg c (setOffset (msg c) (Float64.ofInt (offI + 1))))
  else if isCase k ["good"; "great"; "yes"; "perfect"] then
    Val (None, setResp c (Positive E))
  else if isCase k ["thanks"; "thank"] then
    Val (None, setResp c (Welcome E))
  else Val (None, c).

Fixpoint followUpWords (offI : Z) (words : list string) (c : Ctx) : handled :=
  match words with
  | [] => Val (None, c)
  | w :: rest =>
      '(err, c') <- followUpWord offI w c;;
      match err with
      | Some e => Val (Some e, c')
      | None =>
          if 0 <? Strings.len (resp c') then Val (None, c')
          else followUpWords offI rest c'
      end
  end.

Definition FollowUp (c : Ctx) : handled :=
  let m := msg c in
  if String.eqb (location (MState m)) "" then
    let m := setLocation m (Sentence m) in
    '(err, c') <- searchYelp (setMsg c m);;
    match err with
    | Some e => Val (Some e, c')
    | None => Val (None, c')
    end
  else
    match businesses (MState m) with
    | Some [] => Val (None, setResp c "I couldn't find anything like that")
    | _ =>
        let words := Strings.Fields (resp c) in
        let offI := Float64.toInt (offset (MState m)) in
        followUpWords offI words c
    end.

(** ** Run *)

(** [knowledge.GetLocation(db, m.User)], logged. *)
Definition getLocation (c : Ctx) : located * Ctx :=
  let w := world c in
  (GetLocation E (lookups w) (User (msg c)),
   setWorld c {| requests := requests w; lookups := S (lookups w) |}).

(** [if loc != nil && len(loc.Name) > 0 { m.State["location"] = loc.Name }] *)
Definition keepPartialName (l : located) (m : Msg) : Msg :=
  match loc l with
  | Some p => if 0 <? Strings.len (dt.Name p) then setLocation m (dt.Name p)
              else m
  | None => m
  end.

(** [loc.Name] behind the pointer [loc]. *)
Definition locName (l : located) : result string :=
  match loc l with
  | Some p => Val (dt.Name p)
  | None => Panic NilDereference
  end.

(** The start of [Run]: the state is reset and the query stored, before
    any lookup. *)
Definition storeQuery (c : Ctx) : Ctx :=
  let m := setState (msg c)
             {| query := ""; location := ""; offset := 0;
                businesses := Some [] |} in
  let si := SI m in
  let query := fold_left (fun q o => q ++ (o ++ " ")) (Objects si) "" in
  setMsg c (setQuery m query).

(** The rest of [Run]: the lookups and the search. *)
Definition locate (c : Ctx) : handled :=
  let '(l1, c) := getLocation c in
  match lerr l1 with
  | Some e => Val (Some e, c)
  | None =>
      if 0 <? Strings.len (question l1) then
        let m := keepPartialName l1 (msg c) in
        let m := setSentence m (question l1) in
        Val (None, setMsg c m)
      else
        name <- locName l1;;
        let c := setMsg c (setLocation (msg c) name) in
        if Strings.len (location (MState (msg c))) =? 0 then
          let '(l2, c) := getLocation c in
          match lerr l2 with
          | Some e => Val (Some e, c)
          | None =>
              if 0 <? Strings.len (question l2) then
                let m := keepPartialName l2 (msg c) in
                Val (None, setResp (setMsg c m) (question l2))
              else
                name <- locName l2;;
                let c := setMsg c (setLocation (msg c) name) in
                '(err, c') <- searchYelp c;;
                match err with
                | Some e => Val (Some e, c')
                | None => Val (None, c')
                end
          end
        else
          '(err, c') <- searchYelp c;;
          match err with
          | Some e => Val (Some e, c')
          | None => Val (None, c')
          end
  end.

Definition Run (c : Ctx) : handled := locate (storeQuery c).

End Handlers.

(** ** Vocabulary of the statements *)

(** The provider's reply to the request that [searchYelp] issues from [c]. *)
Definition providerReply (E : Env) (c : Ctx) : httpReply :=
  yelp E (List.length (requests (world c))) "http://api.yelp.com/v2/search"
       (searchForm (MState (msg c))).

(** The three ways in which [client.get] fails. *)
Inductive providerFailure : httpReply -> Prop :=
| transportFailure : providerFailure NoReply
| statusFailure : forall code body, code <> 200 -> providerFailure (Reply code body)
| decodeFailure : providerFailure (Reply 200 None).

(** The request that a search for [q] at [place] sends when the stored
    offset is [k]. *)
Definition searchRequest (q place : string) (k : Z) : string * Values :=
  ("http://api.yelp.com/v2/search",
   [("term", [q]); ("location", [place]);
    ("limit", [Strings.sprintf_0f (Float64.add k 1)])]).

(** The log once the search issued from [c] has been sent. *)
Definition logSearch (c : Ctx) : World :=
  {| requests := requests (world c)
                 ++ [searchRequest (query (MState (msg c)))
                                   (location (MState (msg c)))
                                   (offset (MState (msg c)))];
     lookups := lookups (world c) |}.

(** The first display-address line of a business, the empty string when it
    has none. *)
Definition firstAddressLine (b : Business) : string :=
  match DisplayAddress (Location b) with
  | [] => ""
  | line :: _ => line
  end.

(** The words of the pagination case of the switch. *)
Definition isTrigger (w : string) : bool :=
  isCase (Strings.ToLower (Strings.TrimRight w ").,;?!:"))
         ["not"; "else"; "no"; "anything"; "something"].


(** Every label of the switch in [FollowUp]. *)
Definition keywords : list string :=
  ["rated"; "rating"; "review"; "recommend"; "recommended"]
  ++ ["number"; "phone"] ++ ["call"] ++ ["information"; "info"]
  ++ ["where"; "location"; "address"; "direction"; "directions"; "addr"]
  ++ ["pictures"; "pic"; "pics"] ++ ["menu"; "have"]
  ++ ["not"; "else"; "no"; "anything"; "something"]
  ++ ["good"; "great"; "yes"; "perfect"] ++ ["thanks"; "thank"].

Definition isKeyword (w : string) : bool :=
  isCase (Strings.ToLower (Strings.TrimRight w ").,;?!:")) keywords.

(** The object tokens, each followed by one space, in their order. *)
Fixpoint spaced (tokens : list string) : string :=
  match tokens with
  | [] => ""
  | t :: rest => t ++ " " ++ spaced rest
  end.

(** ** Concrete conversations *)

Module Scenario.

Definition torchys : Business :=
  {| Name := "Torchy's";
     ImageURL := "http://s3.yelp.com/torchys.jpg";
     MobileURL := "http://m.yelp.com/biz/torchys";
     DisplayPhone := "(512) 555-0100";
     Distance := 120;
     Rating := 4.5%float;
     Location := {| City := "Austin";
                    DisplayAddress := ["101 Main St"; "Austin, TX 78701"] |} |}.

(** A business listed without a phone number and without address lines. *)
Definition cart : Business :=
  {| Name := "Taco Cart";
     ImageURL := "";
     MobileURL := "http://m.yelp.com/biz/taco-cart";
     DisplayPhone := "";
     Distance := 300;
     Rating := 4%float;
     Location := {| City := "Austin"; DisplayAddress := [] |} |}.

Definition austin : located :=
  {| loc := Some {| dt.Name := "Austin" |}; question := ""; lerr := None |}.

Definition whereAreYou : located :=
  {| loc := None; question := "Where are you?"; lerr := None |}.

(** The provider answers every request with [bs]. *)
Definition serving (bs : list Business) : Env :=
  {| yelp := fun _ _ _ => Reply 200 (Some {| Businesses := bs |});
     GetLocation := fun _ _ => austin;
     Positive := "Great!";
     Welcome := "You're welcome!";
     sprintf_1f := fun _ => "4.5" |}.

(** The provider cannot be reached. *)
Definition down : Env :=
  {| yelp := fun _ _ _ => NoReply;
     GetLocation := fun _ _ => austin;
     Positive := "Great!";
     Welcome := "You're welcome!";
     sprintf_1f := fun _ => "4.5" |}.

(** The resolver does not know where the user is. *)
Definition asking : Env :=
  {| yelp := fun _ _ _ => Reply 200 (Some {| Businesses := [torchys] |});
     GetLocation := fun _ _ => whereAreYou;
     Positive := "Great!";
     Welcome := "You're welcome!";
     sprintf_1f := fun _ => "4.5" |}.

(** The resolver first returns a location without a name and asks its
    question only when it is called again. *)
Definition askingLater : Env :=
  {| yelp := fun _ _ _ => Reply 200 (Some {| Businesses := [torchys] |});
     GetLocation := fun n _ =>
       match n with
       | O => {| loc := Some {| dt.Name := "" |}; question := ""; lerr := None |}
       | S _ => whereAreYou
       end;
     Positive := "Great!";
     Welcome := "You're welcome!";
     sprintf_1f := fun _ => "4.5" |}.

Definition quiet : World := {| requests := []; lookups := 0 |}.

(** A conversation about tacos in Austin with [bs] stored at offset [k]. *)
Definition tacos (bs : list Business) (k : Z) : State :=
  {| query := "tacos "; location := "Austin"; offset := k;
     businesses := Some bs |}.

(** A turn on state [st] in which [*resp] holds [prior] on entry. *)
Definition turn (st : State) (prior : string) : Ctx :=
  {| msg := {| User := 7; Sentence := "what about it";
               SI := {| Commands := []; Objects := [] |};
               MState := st |};
     resp := prior;
     world := quiet |}.

(** The first turn of a conversation: "find tacos". *)
Definition findTacos : Ctx :=
  {| msg := {| User := 7; Sentence := "find tacos";
               SI := {| Commands := ["find"]; Objects := ["tacos"] |};
               MState := {| query := "burgers "; location := "Dallas";
                            offset := 3; businesses := None |} |};
     resp := "";
     world := quiet |}.

End Scenario.

(** ** More vocabulary and conversations *)

(** What the switch of [FollowUp] compares with its labels. *)
Definition normal (w : string) : string :=
  Strings.ToLower (Strings.TrimRight w ").,;?!:").

(** A text of bytes below 0x80 only. *)
Fixpoint isASCII (s : string) : bool :=
  match s with
  | EmptyString => true
  | String c rest => (nat_of_ascii c <? 128)%nat && isASCII rest
  end.

(** A text made of white space only. *)
Fixpoint allSpace (s : string) : bool :=
  match s with
  | EmptyString => true
  | String c rest => Strings.isSpace c && allSpace rest
  end.

(** The words whose case of the switch reads the business at the offset. *)
Definition readsBusiness (w : string) : bool :=
  isCase (normal w)
         (["rated"; "rating"; "review"; "recommend"; "recommended"]
          ++ ["number"; "phone"] ++ ["call"] ++ ["information"; "info"]
          ++ ["where"; "location"; "address"; "direction"; "directions"; "addr"]
          ++ ["pictures"; "pic"; "pics"] ++ ["menu"; "have"]).

(** The state that [Run] builds before it asks for the location. *)
Definition freshState (tokens : list string) : State :=
  {| query := spaced tokens; location := ""; offset := 0;
     businesses := Some [] |}.

(** The name behind the pointer that a lookup returned, empty for nil. *)
Definition partialName (l : located) : string :=
  match loc l with
  | Some p => dt.Name p
  | None => ""
  end.

(** The first and the second answer of the resolver during [Run] on [c]. *)
Definition firstAnswer (E : Env) (c : Ctx) : located :=
  GetLocation E (lookups (world c)) (User (msg c)).

Definition secondAnswer (E : Env) (c : Ctx) : located :=
  GetLocation E (S (lookups (world c))) (User (msg c)).

(** An answer without error, question or location. *)
Definition silent (l : located) : Prop :=
  lerr l = None /\ question l = "" /\ loc l = None.

(** An answer without error or question whose location has no name. *)
Definition unnamed (l : located) : Prop :=
  lerr l = None /\ question l = ""
  /\ exists p, loc l = Some p /\ dt.Name p = "".

(** An answer without error or question whose location is called [name]. *)
Definition named (l : located) (name : string) : Prop :=
  lerr l = None /\ question l = ""
  /\ exists p, loc l = Some p /\ dt.Name p = name.

(** The context of [Run] on [c] after [n] lookups, with [place] stored as
    the location: the state is fresh, the response buffer untouched. *)
Definition lookedUp (c : Ctx) (n : nat) (place : string) : Ctx :=
  {| msg := setState (msg c)
              {| query := spaced (Objects (SI (msg c))); location := place;
                 offset := 0; businesses := Some [] |};
     resp := resp c;
     world := {| requests := requests (world c);
                 lookups := (n + lookups (world c))%nat |} |}.

(** What [Run] does with the second answer of the resolver. *)
Definition bySecondAnswer (E : Env) (c : Ctx) : handled :=
  let l2 := secondAnswer E c in
  match lerr l2 with
  | Some e => Val (Some e, lookedUp c 2 "")
  | None =>
      if 0 <? Strings.len (question l2)
      then Val (None, setResp (lookedUp c 2 (partialName l2)) (question l2))
      else match loc l2 with
           | Some p => searchYelp E (lookedUp c 2 (dt.Name p))
           | None => Panic NilDereference
           end
  end.

(** The next turn of a conversation: the host hands back the message with
    the user's new sentence and a response buffer holding [buffer]. *)
Definition nextTurn (c : Ctx) (sentence buffer : string) : Ctx :=
  setResp (setMsg c (setSentence (msg c) sentence)) buffer.

(** The five ways in which a search ends. *)
Inductive searchEnd (E : Env) (c : Ctx) : handled -> Prop :=
| endFailure :
    providerFailure (providerReply E c) ->
    searchEnd E c (Val (None, setWorld c (logSearch c)))
| endEmpty : forall data,
    providerReply E c = Reply 200 (Some data) ->
    Businesses data = [] ->
    searchEnd E c
      (Val (None,
            setResp (setWorld (setMsg c (setBusinesses (msg c) (Some [])))
                              (logSearch c))
                    "I couldn't find any places like that nearby."))
| endShort : forall data,
    providerReply E c = Reply 200 (Some data) ->
    0 < Z.of_nat (List.length (Businesses data)) <= offset (MState (msg c)) ->
    searchEnd E c
      (Val (None,
            setResp (setWorld (setMsg c (setBusinesses (msg c)
                                           (Some (Businesses data))))
                              (logSearch c))
                    "That's all I could find."))
| endHit : forall data b,
    providerReply E c = Reply 200 (Some data) ->
    0 <= offset (MState (msg c)) ->
    nth_error (Businesses data) (Z.to_nat (offset (MState (msg c)))) = Some b ->
    searchEnd E c
      (Val (None,
            setResp (setWorld (setMsg c (setBusinesses (msg c)
                                           (Some (Businesses data))))
                              (logSearch c))
                    (if offset (MState (msg c)) =? 0
                     then "Ok. How does this place look? " ++ Name b
                          ++ " at " ++ firstAddressLine b
                     else "What about " ++ Name b ++ " instead?")))
| endNegative : forall data,
    providerReply E c = Reply 200 (Some data) ->
    Businesses data <> [] ->
    offset (MState (msg c)) < 0 ->
    searchEnd E c (Panic IndexOutOfRange).

Module Dialogs.

(** The resolver asks which city is meant and returns the region it knows. *)
Definition whichCity : located :=
  {| loc := Some {| dt.Name := "Texas" |}; question := "Which city?";
     lerr := None |}.

(** The resolver fails. *)
Definition lost : located :=
  {| loc := None; question := ""; lerr := Some ErrLocation |}.

(** The resolver returns nothing at all. *)
Definition silent : located :=
  {| loc := None; question := ""; lerr := None |}.

(** An environment whose provider answers every request with [bs] and whose
    resolver answers every lookup with [l]. *)
Definition env (bs : list Business) (l : located) : Env :=
  {| yelp := fun _ _ _ => Reply 200 (Some {| Businesses := bs |});
     GetLocation := fun _ _ => l;
     Positive := "Great!";
     Welcome := "You're welcome!";
     sprintf_1f := fun _ => "4.5" |}.

(** A provider that answers with status 503. *)
Definition unavailable : Env :=
  {| yelp := fun _ _ _ => Reply 503 None;
     GetLocation := fun _ _ => Scenario.austin;
     Positive := "Great!";
     Welcome := "You're welcome!";
     sprintf_1f := fun _ => "4.5" |}.

End Dialogs.

(** * Properties *)

(** ** Slices and strings *)

Lemma index_in_range {A : Type} (l : list A) (i : Z) :
  0 <= i < Z.of_nat (List.length l) ->
  exists x, index l i = Val x /\ nth_error l (Z.to_nat i) = Some x.
Proof.
  intros [Hlo Hhi]. unfold index.
  assert (Hlt : (Z.to_nat i < List.length l)%nat) by lia.
  replace (i <? 0) with false by (symmetry; apply Z.ltb_ge; lia).
  replace (Z.of_nat (List.length l) <=? i) with false
    by (symmetry; apply Z.leb_gt; lia).
  cbn [orb].
  destruct (nth_error l (Z.to_nat i)) as [x|] eqn:Hnth.
  - now exists x.
  - apply nth_error_None in Hnth. lia.
Qed.

Lemma index_out_of_range {A : Type} (l : list A) (i : Z) :
  i < 0 \/ Z.of_nat (List.length l) <= i ->
  index l i = Panic IndexOutOfRange.
Proof.
  intros H. unfold index.
  destruct (i <? 0) eqn:Hneg; [reflexivity|].
  apply Z.ltb_ge in Hneg.
  replace (Z.of_nat (List.length l) <=? i) with true
    by (symmetry; apply Z.leb_le; lia).
  reflexivity.
Qed.

Lemma index_nth {A : Type} (l : list A) (i : Z) (x : A) :
  0 <= i -> nth_error l (Z.to_nat i) = Some x -> index l i = Val x.
Proof.
  intros Hlo Hnth.
  assert (Hlt : (Z.to_nat i < List.length l)%nat)
    by (apply nth_error_Some; congruence).
  destruct (index_in_range l i) as (y & Hy & Hnth'); [lia|].
  congruence.
Qed.

Lemma len_cons_pos (a : ascii) (s : string) :
  (0 <? Strings.len (String a s)) = true.
Proof. unfold Strings.len. cbn [String.length]. apply Z.ltb_lt. lia. Qed.

Lemma len_empty : (0 <? Strings.len "") = false.
Proof. reflexivity. Qed.

Lemma len_pos_nonempty (s : string) :
  (0 <? Strings.len s) = true <-> s <> "".
Proof.
  destruct s as [|a s].
  - rewrite len_empty. split; [discriminate | congruence].
  - rewrite len_cons_pos. split; [discriminate | reflexivity].
Qed.

Lemma fieldsFrom_nonempty (s cur : string) :
  cur <> "" -> Strings.fieldsFrom cur s <> [].
Proof.
  revert cur. induction s as [|a s IH]; intros cur Hcur; cbn.
  - destruct cur; [congruence | discriminate].
  - destruct (Strings.isSpace a).
    + destruct cur; [congruence | discriminate].
    + apply IH. destruct cur; discriminate.
Qed.

(** A text with a word in it is not the empty text. *)
Lemma Fields_cons_nonempty (s w : string) (ws : list string) :
  Strings.Fields s = w :: ws -> (0 <? Strings.len s) = true.
Proof.
  destruct s as [|a s]; [discriminate|]. intros _. apply len_cons_pos.
Qed.

(** The rendered limit reads back as the number it was made from. *)
Lemma sprintf_0f_reads_back (z : Z) :
  option_map Z.of_int (NilEmpty.int_of_string (Strings.sprintf_0f z)) = Some z.
Proof.
  unfold Strings.sprintf_0f. rewrite NilEmpty.isi. cbn [option_map].
  now rewrite DecimalZ.of_to.
Qed.

Lemma sprintf_0f_inj (x y : Z) :
  Strings.sprintf_0f x = Strings.sprintf_0f y -> x = y.
Proof.
  intros H. pose proof (sprintf_0f_reads_back x) as Hx.
  rewrite H, sprintf_0f_reads_back in Hx. congruence.
Qed.

(** ** Rounding *)

Lemma round_exact (z : Z) : 0 <= z <= 2 ^ 53 -> Float64.round z = z.
Proof.
  intros [Hlo Hhi]. unfold Float64.round; cbv zeta.
  destruct (Z.log2 (Z.abs z) - 52 <=? 0) eqn:He; [reflexivity|].
  apply Z.leb_gt in He. rewrite Z.abs_eq in He by exact Hlo.
  assert (Hpos : 0 < z) by (destruct (Z.eq_dec z 0) as [->|]; [cbn in He; lia | lia]).
  destruct (Z.log2_spec z Hpos) as [Hpow _].
  assert (Hmono : 2 ^ 53 <= 2 ^ Z.log2 z) by (apply Z.pow_le_mono_r; lia).
  assert (Hz : z = 2 ^ 53) by lia.
  subst z. vm_compute. reflexivity.
Qed.

Lemma round_nonneg (z : Z) : 0 <= z -> 0 <= Float64.round z.
Proof.
  intros Hlo. unfold Float64.round; cbv zeta.
  destruct (Z.log2 (Z.abs z) - 52 <=? 0); [exact Hlo|].
  apply Z.mul_nonneg_nonneg; [now apply Z.sgn_nonneg|].
  apply Z.shiftl_nonneg.
  assert (Hq : 0 <= Z.shiftr (Z.abs z) (Z.log2 (Z.abs z) - 52))
    by (apply Z.shiftr_nonneg; apply Z.abs_nonneg).
  match goal with |- 0 <= (if ?b then _ else _) => destruct b end; lia.
Qed.

Lemma ofInt_succ (k : Z) :
  0 <= k < 2 ^ 53 -> Float64.ofInt (k + 1) = k + 1.
Proof. intros H. unfold Float64.ofInt. apply round_exact. lia. Qed.

Lemma add_one (k : Z) :
  0 <= k < 2 ^ 53 -> Float64.add k 1 = k + 1.
Proof. intros H. unfold Float64.add. apply round_exact. lia. Qed.

Lemma ofInt_succ_nonneg (k : Z) : 0 <= k -> 0 <= Float64.ofInt (k + 1).
Proof. intros H. unfold Float64.ofInt. apply round_nonneg. lia. Qed.

(** ** searchYelp *)

Section SearchYelp.

Variable E : Env.

Lemma searchYelp_on_failure (c : Ctx) :
  providerFailure (providerReply E c) ->
  searchYelp E c = Val (None, setWorld c (logSearch c)).
Proof.
  intros Hfail.
  unfold searchYelp, get, Float64.toInt; cbv zeta. fold (providerReply E c).
  destruct Hfail as [|code body Hcode|].
  - reflexivity.
  - replace (code =? 200) with false by (symmetry; apply Z.eqb_neq; exact Hcode).
    reflexivity.
  - reflexivity.
Qed.

Lemma searchYelp_on_empty (c : Ctx) (data : yelpResp) :
  providerReply E c = Reply 200 (Some data) ->
  Businesses data = [] ->
  searchYelp E c =
    Val (None,
         setResp (setWorld (setMsg c (setBusinesses (msg c) (Some []))) (logSearch c))
                 "I couldn't find any places like that nearby.").
Proof.
  unfold providerReply. intros Hr Hempty.
  unfold searchYelp, get, Float64.toInt; cbv zeta. rewrite Hr. cbn [negb Z.eqb Pos.eqb].
  rewrite Hempty. reflexivity.
Qed.

Lemma searchYelp_on_short (c : Ctx) (data : yelpResp) :
  providerReply E c = Reply 200 (Some data) ->
  0 < Z.of_nat (List.length (Businesses data)) <= offset (MState (msg c)) ->
  searchYelp E c =
    Val (None,
         setResp (setWorld (setMsg c (setBusinesses (msg c) (Some (Businesses data))))
                           (logSearch c))
                 "That's all I could find.").
Proof.
  unfold providerReply. intros Hr [Hpos Hle].
  unfold searchYelp, get, Float64.toInt; cbv zeta. rewrite Hr. cbn [negb Z.eqb Pos.eqb].
  replace (Z.of_nat (List.length (Businesses data)) =? 0) with false
    by (symmetry; apply Z.eqb_neq; lia).
  replace (Z.of_nat (List.length (Businesses data)) <=? offset (MState (msg c)))
    with true by (symmetry; apply Z.leb_le; lia).
  reflexivity.
Qed.

Lemma searchYelp_on_hit (c : Ctx) (data : yelpResp) (b : Business) :
  providerReply E c = Reply 200 (Some data) ->
  0 <= offset (MState (msg c)) ->
  nth_error (Businesses data) (Z.to_nat (offset (MState (msg c)))) = Some b ->
  searchYelp E c =
    Val (None,
         setResp (setWorld (setMsg c (setBusinesses (msg c) (Some (Businesses data))))
                           (logSearch c))
                 (if offset (MState (msg c)) =? 0
                  then "Ok. How does this place look? " ++ Name b
                       ++ " at " ++ firstAddressLine b
                  else "What about " ++ Name b ++ " instead?")).
Proof.
  unfold providerReply. intros Hr Hlo Hnth.
  assert (Hlt : (Z.to_nat (offset (MState (msg c))) < List.length (Businesses data))%nat)
    by (apply nth_error_Some; congruence).
  unfold searchYelp, get, Float64.toInt; cbv zeta. rewrite Hr. cbn [negb Z.eqb Pos.eqb].
  replace (Z.of_nat (List.length (Businesses data)) =? 0) with false
    by (symmetry; apply Z.eqb_neq; lia).
  replace (Z.of_nat (List.length (Businesses data)) <=? offset (MState (msg c)))
    with false by (symmetry; apply Z.leb_gt; lia).
  rewrite (index_nth _ _ b Hlo Hnth). cbn [bind].
  unfold firstAddressLine.
  destruct (DisplayAddress (Location b)) as [|line lines]; cbn [bind];
    destruct (offset (MState (msg c)) =? 0); reflexivity.
Qed.

(** With a non-negative offset a search always returns nil: it sends one
    request, keeps query, location and offset, and either leaves the
    response as it was or writes a non-empty one. *)
Lemma searchYelp_returns (c : Ctx) :
  0 <= offset (MState (msg c)) ->
  exists c',
    searchYelp E c = Val (None, c')
    /\ world c' = logSearch c
    /\ query (MState (msg c')) = query (MState (msg c))
    /\ location (MState (msg c')) = location (MState (msg c))
    /\ offset (MState (msg c')) = offset (MState (msg c))
    /\ (resp c' = resp c \/ (0 <? Strings.len (resp c')) = true).
Proof.
  intros Hlo.
  destruct (providerReply E c) as [|code body] eqn:Hr.
  - eexists. split; [apply searchYelp_on_failure; rewrite Hr; constructor|].
    cbn. auto 10.
  - destruct (Z.eq_dec code 200) as [->|Hcode].
    + destruct body as [data|].
      * destruct (Businesses data) as [|b0 bs] eqn:Hbs.
        { eexists. split; [eapply searchYelp_on_empty; eassumption|].
          cbn. auto 10. }
        destruct (Z_le_gt_dec (Z.of_nat (List.length (Businesses data)))
                              (offset (MState (msg c)))) as [Hle|Hgt].
        { eexists. split.
          - eapply searchYelp_on_short; [eassumption|].
            rewrite Hbs in *. cbn [List.length] in *. lia.
          - cbn. auto 10. }
        destruct (index_in_range (Businesses data) (offset (MState (msg c))))
          as (b & _ & Hnth); [lia|].
        eexists. split; [eapply searchYelp_on_hit; eassumption|].
        cbn. repeat split; try reflexivity. right.
        destruct (offset (MState (msg c)) =? 0); apply len_cons_pos.
      * eexists. split;
          [apply searchYelp_on_failure; rewrite Hr; apply decodeFailure|].
        cbn. auto 10.
    + eexists. split;
        [apply searchYelp_on_failure; rewrite Hr; constructor; exact Hcode|].
      cbn. auto 10.
Qed.

End SearchYelp.

(** C5. Whatever way the provider fails (no reply, a status other than 200,
    a body that does not decode), [searchYelp] returns nil, the message and
    with it the whole conversation state are what they were, and the
    response text is not written. *)
Theorem searchYelp_absorbs_provider_failure (E : Env) (c : Ctx) :
  providerFailure (providerReply E c) ->
  exists c',
    searchYelp E c = Val (None, c')
    /\ msg c' = msg c
    /\ resp c' = resp c.
Proof.
  intros Hfail. exists (setWorld c (logSearch c)).
  split; [now apply searchYelp_on_failure|]. split; reflexivity.
Qed.

Lemma searchYelp_absorbs_provider_failure_witness :
  providerFailure (providerReply Scenario.down
                     (Scenario.turn (Scenario.tacos [] 0) ""))
  /\ exists c',
       searchYelp Scenario.down (Scenario.turn (Scenario.tacos [] 0) "")
         = Val (None, c')
       /\ msg c' = msg (Scenario.turn (Scenario.tacos [] 0) "")
       /\ resp c' = resp (Scenario.turn (Scenario.tacos [] 0) "").
Proof.
  split.
  - apply transportFailure.
  - apply (searchYelp_absorbs_provider_failure Scenario.down
             (Scenario.turn (Scenario.tacos [] 0) "")).
    apply transportFailure.
Defined.

(** C8. When the provider returns a business at the stored offset, the
    response is "Ok. How does this place look? {name} at {first address
    line}" at offset 0 and "What about {name} instead?" at a later offset;
    the address line is the empty string for a business without
    display-address lines. *)
Theorem searchYelp_presents_business (E : Env) (c : Ctx) (data : yelpResp)
    (b : Business) :
  providerReply E c = Reply 200 (Some data) ->
  0 <= offset (MState (msg c)) ->
  nth_error (Businesses data) (Z.to_nat (offset (MState (msg c)))) = Some b ->
  exists c',
    searchYelp E c = Val (None, c')
    /\ (offset (MState (msg c)) = 0 ->
        resp c' = "Ok. How does this place look? " ++ Name b ++ " at "
                  ++ firstAddressLine b)
    /\ (0 < offset (MState (msg c)) ->
        resp c' = "What about " ++ Name b ++ " instead?")
    /\ (DisplayAddress (Location b) = [] -> firstAddressLine b = "").
Proof.
  intros Hr Hlo Hnth. eexists.
  split; [eapply searchYelp_on_hit; eassumption|].
  cbn [resp setResp]. repeat split.
  - intros ->. reflexivity.
  - intros Hpos.
    replace (offset (MState (msg c)) =? 0) with false
      by (symmetry; apply Z.eqb_neq; lia).
    reflexivity.
  - unfold firstAddressLine. intros ->. reflexivity.
Qed.

Lemma searchYelp_presents_business_witness :
  exists c',
    searchYelp (Scenario.serving [Scenario.torchys; Scenario.cart])
               (Scenario.turn (Scenario.tacos [Scenario.torchys] 1) "")
      = Val (None, c')
    /\ resp c' = "What about Taco Cart instead?".
Proof.
  destruct (searchYelp_presents_business
              (Scenario.serving [Scenario.torchys; Scenario.cart])
              (Scenario.turn (Scenario.tacos [Scenario.torchys] 1) "")
              {| Businesses := [Scenario.torchys; Scenario.cart] |}
              Scenario.cart eq_refl ltac:(cbn; lia) eq_refl)
    as (c' & Hrun & _ & Hlater & _).
  exists c'. split; [exact Hrun|]. apply Hlater. cbn. lia.
Defined.

(** C4, as amended.  When the provider returns [n] businesses and the stored
    offset is at least [n] and below 2^63, [searchYelp] returns nil without
    indexing into the list, which it stores; the response is "That's all I
    could find." when [n] is positive, and "I couldn't find any places like
    that nearby." when [n] is 0.  (From 2^63 on, [int(offset)] is left to
    the implementation and is outside this embedding.) *)
Theorem searchYelp_past_the_end (E : Env) (c : Ctx) (data : yelpResp) :
  providerReply E c = Reply 200 (Some data) ->
  Z.of_nat (List.length (Businesses data)) <= offset (MState (msg c)) < 2 ^ 63 ->
  exists c',
    searchYelp E c = Val (None, c')
    /\ businesses (MState (msg c')) = Some (Businesses data)
    /\ (0 < Z.of_nat (List.length (Businesses data)) ->
        resp c' = "That's all I could find.")
    /\ (Businesses data = [] ->
        resp c' = "I couldn't find any places like that nearby.").
Proof.
  intros Hr [Hle _].
  destruct (Businesses data) as [|b bs] eqn:Hbs.
  - eexists. split; [eapply searchYelp_on_empty; eassumption|].
    cbn. split; [reflexivity|]. split; [lia | reflexivity].
  - eexists. split.
    + eapply searchYelp_on_short; [eassumption|].
      rewrite Hbs in *. cbn [List.length] in *. lia.
    + cbn. rewrite Hbs. split; [reflexivity|].
      split; [reflexivity | discriminate].
Qed.

Lemma searchYelp_past_the_end_witness :
  exists c',
    searchYelp (Scenario.serving [Scenario.torchys])
               (Scenario.turn (Scenario.tacos [Scenario.torchys] 1) "")
      = Val (None, c')
    /\ resp c' = "That's all I could find.".
Proof.
  destruct (searchYelp_past_the_end
              (Scenario.serving [Scenario.torchys])
              (Scenario.turn (Scenario.tacos [Scenario.torchys] 1) "")
              {| Businesses := [Scenario.torchys] |}
              eq_refl ltac:(cbn; lia))
    as (c' & Hrun & _ & Hmsg & _).
  exists c'. split; [exact Hrun|]. apply Hmsg. cbn. lia.
Defined.

(** C4 as stated fails for a list of length 0: the stored list is empty
    before and after the search, the stored offset 0 is at least its length,
    and the response is not "That's all I could find.". *)
Lemma searchYelp_empty_list_other_message :
  let c := Scenario.turn (Scenario.tacos [] 0) "" in
  exists c',
    searchYelp (Scenario.serving []) c = Val (None, c')
    /\ businesses (MState (msg c)) = Some []
    /\ businesses (MState (msg c')) = Some []
    /\ offset (MState (msg c')) >= 0
    /\ resp c' = "I couldn't find any places like that nearby."
    /\ resp c' <> "That's all I could find.".
Proof.
  cbv zeta. eexists. split; [reflexivity|].
  cbn. split; [reflexivity|]. split; [reflexivity|]. split; [lia|].
  split; [reflexivity | discriminate].
Qed.



(** X22. None of the four accessors checks [offset] against the stored list:
    with an offset below 0 or not below the length, each of them indexes
    out of range. *)
Lemma accessors_unchecked (E : Env) (m : Msg) (k : Z) (bs : list Business) :
  businesses (MState m) = Some bs ->
  k < 0 \/ Z.of_nat (List.length bs) <= k ->
  getRating E m k = Panic IndexOutOfRange
  /\ getURL m k = Panic IndexOutOfRange
  /\ getPhone m k = Panic IndexOutOfRange
  /\ getAddress m k = Panic IndexOutOfRange.
Proof.
  intros Hbs Hout.
  unfold getRating, getURL, getPhone, getAddress, stateBusinesses.
  rewrite Hbs. cbn [bind]. rewrite (index_out_of_range bs k Hout).
  repeat split.
Qed.

Lemma accessors_in_range (E : Env) (m : Msg) (k : Z) (bs : list Business)
    (b : Business) :
  businesses (MState m) = Some bs ->
  0 <= k ->
  nth_error bs (Z.to_nat k) = Some b ->
  getRating E m k = Val (sprintf_1f E (Rating b))
  /\ getURL m k = Val (MobileURL b)
  /\ getPhone m k = Val (DisplayPhone b).
Proof.
  intros Hbs Hlo Hnth.
  unfold getRating, getURL, getPhone, stateBusinesses.
  rewrite Hbs. cbn [bind]. rewrite (index_nth bs k b Hlo Hnth).
  repeat split.
Qed.

Lemma getAddress_in_range (m : Msg) (k : Z) (bs : list Business) (b : Business) :
  businesses (MState m) = Some bs ->
  0 <= k ->
  nth_error bs (Z.to_nat k) = Some b ->
  getAddress m k =
    match DisplayAddress (Location b) with
    | [] => Panic IndexOutOfRange
    | [line] => Val line
    | line1 :: line2 :: _ => Val (line1 ++ " in " ++ line2)
    end.
Proof.
  intros Hbs Hlo Hnth. unfold getAddress, stateBusinesses.
  rewrite Hbs. cbn [bind]. rewrite (index_nth bs k b Hlo Hnth). cbn [bind].
  destruct (DisplayAddress (Location b)) as [|l1 [|l2 more]].
  - reflexivity.
  - reflexivity.
  - replace (1 <? Z.of_nat (List.length (l1 :: l2 :: more))) with true
      by (symmetry; apply Z.ltb_lt; cbn [List.length]; lia).
    rewrite (index_nth (l1 :: l2 :: more) 0 l1), (index_nth (l1 :: l2 :: more) 1 l2);
      [reflexivity | lia | reflexivity | lia | reflexivity].
Qed.

(** C10. [getAddress] reads the first display-address line of the business
    at the stored offset without a test: it returns that line when it is the
    only one, "{line1} in {line2}" when there is a second, and for a
    business without lines it indexes out of range, and so does the address
    action of FollowUp; [searchYelp] presents the same business with the
    empty string for its address. *)
Theorem getAddress_needs_a_line (E : Env) (c : Ctx) (bs : list Business)
    (b : Business) :
  businesses (MState (msg c)) = Some bs ->
  0 <= offset (MState (msg c)) ->
  nth_error bs (Z.to_nat (offset (MState (msg c)))) = Some b ->
  (forall line, DisplayAddress (Location b) = [line] ->
     getAddress (msg c) (offset (MState (msg c))) = Val line)
  /\ (forall line1 line2 more,
        DisplayAddress (Location b) = line1 :: line2 :: more ->
        getAddress (msg c) (offset (MState (msg c)))
          = Val (line1 ++ " in " ++ line2))
  /\ (DisplayAddress (Location b) = [] ->
        getAddress (msg c) (offset (MState (msg c))) = Panic IndexOutOfRange
        /\ followUpWord E (offset (MState (msg c))) "address" c
             = Panic IndexOutOfRange
        /\ forall (c0 : Ctx) (data : yelpResp),
             providerReply E c0 = Reply 200 (Some data) ->
             Businesses data = bs ->
             offset (MState (msg c0)) = offset (MState (msg c)) ->
             exists c',
               searchYelp E c0 = Val (None, c')
               /\ resp c' = if offset (MState (msg c)) =? 0
                            then "Ok. How does this place look? " ++ Name b
                                 ++ " at " ++ ""
                            else "What about " ++ Name b ++ " instead?").
Proof.
  intros Hbs Hlo Hnth.
  pose proof (getAddress_in_range (msg c) _ bs b Hbs Hlo Hnth) as Haddr.
  split; [|split].
  - intros line Hline. now rewrite Haddr, Hline.
  - intros l1 l2 more Hlines. now rewrite Haddr, Hlines.
  - intros Hnone. rewrite Hnone in Haddr. split; [exact Haddr|]. split.
    + unfold followUpWord; cbv zeta.
      change (Strings.ToLower (Strings.TrimRight "address" ").,;?!:"))
        with "address".
      cbn [isCase existsb String.eqb Ascii.eqb Bool.eqb orb andb].
      rewrite Haddr. reflexivity.
    + intros c0 data Hr Hdata Hoff. subst bs. rewrite <- Hoff in *.
      eexists. split; [eapply searchYelp_on_hit; eassumption|].
      cbn [resp setResp]. unfold firstAddressLine. rewrite Hnone. reflexivity.
Qed.

Lemma getAddress_needs_a_line_witness :
  getAddress (msg (Scenario.turn (Scenario.tacos [Scenario.cart] 0) "address")) 0
    = Panic IndexOutOfRange
  /\ exists c',
       searchYelp (Scenario.serving [Scenario.cart])
                  (Scenario.turn (Scenario.tacos [] 0) "") = Val (None, c')
       /\ resp c' = "Ok. How does this place look? Taco Cart at ".
Proof.
  destruct (getAddress_needs_a_line
              (Scenario.serving [Scenario.cart])
              (Scenario.turn (Scenario.tacos [Scenario.cart] 0) "address")
              [Scenario.cart] Scenario.cart
              eq_refl ltac:(cbn; lia) eq_refl)
    as (_ & _ & Hnone).
  destruct (Hnone eq_refl) as (Hpanic & _ & Hsearch).
  split; [exact Hpanic|].
  exact (Hsearch (Scenario.turn (Scenario.tacos [] 0) "")
                 {| Businesses := [Scenario.cart] |} eq_refl eq_refl eq_refl).
Defined.

(** ** The switch of FollowUp *)

Lemma isCase_In (key : string) (labels : list string) :
  isCase key labels = true -> In key labels.
Proof.
  unfold isCase. intros H. apply existsb_exists in H.
  destruct H as (label & Hin & Heq). apply String.eqb_eq in Heq. now subst.
Qed.

Lemma isCase_app (key : string) (xs ys : list string) :
  isCase key (xs ++ ys) = isCase key xs || isCase key ys.
Proof. unfold isCase. apply existsb_app. Qed.

(** A label of another case is not a pagination word. *)
Ltac other_case H :=
  apply isCase_In in H; cbn [In] in H;
  repeat (destruct H as [H|H]; [rewrite <- H; reflexivity|]);
  contradiction.

Section FollowUpLoop.

Variable E : Env.

(** A pagination word searches again with the offset set to
    [float64(offI + 1)]; any other word leaves the message and the log
    alone. *)
Lemma followUpWord_step (offI : Z) (w : string) (c : Ctx) :
  (isTrigger w = true
   /\ followUpWord E offI w c
      = searchYelp E (setMsg c (setOffset (msg c) (Float64.ofInt (offI + 1)))))
  \/ (isTrigger w = false
      /\ forall e c1, followUpWord E offI w c = Val (e, c1) ->
           e = None /\ msg c1 = msg c /\ world c1 = world c).
Proof.
  unfold isTrigger, followUpWord; cbv zeta.
  generalize (Strings.ToLower (Strings.TrimRight w ").,;?!:")). intros key.
  destruct (isCase key ["rated"; "rating"; "review"; "recommend"; "recommended"])
    eqn:H1.
  { right. split; [other_case H1|].
    intros e c1. destruct (getRating E (msg c) offI); cbn [bind]; [|discriminate].
    intros [= <- <-]. auto. }
  destruct (isCase key ["number"; "phone"]) eqn:H2.
  { right. split; [other_case H2|].
    intros e c1. destruct (getPhone (msg c) offI); cbn [bind]; [|discriminate].
    intros [= <- <-]. auto. }
  destruct (isCase key ["call"]) eqn:H3.
  { right. split; [other_case H3|].
    intros e c1. destruct (getPhone (msg c) offI); cbn [bind]; [|discriminate].
    intros [= <- <-]. auto. }
  destruct (isCase key ["information"; "info"]) eqn:H4.
  { right. split; [other_case H4|].
    intros e c1. destruct (getURL (msg c) offI); cbn [bind]; [|discriminate].
    intros [= <- <-]. auto. }
  destruct (isCase key ["where"; "location"; "address"; "direction";
                        "directions"; "addr"]) eqn:H5.
  { right. split; [other_case H5|].
    intros e c1. destruct (getAddress (msg c) offI); cbn [bind]; [|discriminate].
    intros [= <- <-]. auto. }
  destruct (isCase key ["pictures"; "pic"; "pics"]) eqn:H6.
  { right. split; [other_case H6|].
    intros e c1. destruct (getURL (msg c) offI); cbn [bind]; [|discriminate].
    intros [= <- <-]. auto. }
  destruct (isCase key ["menu"; "have"]) eqn:H7.
  { right. split; [other_case H7|].
    intros e c1. destruct (getURL (msg c) offI); cbn [bind]; [|discriminate].
    intros [= <- <-]. auto. }
  destruct (isCase key ["not"; "else"; "no"; "anything"; "something"]) eqn:H8.
  { left. split; reflexivity. }
  right. split; [reflexivity|].
  intros e c1.
  destruct (isCase key ["good"; "great"; "yes"; "perfect"]);
    [intros [= <- <-]; auto|].
  destruct (isCase key ["thanks"; "thank"]); intros [= <- <-]; auto.
Qed.

(** A word that is no label of the switch changes nothing. *)
Lemma followUpWord_no_keyword (offI : Z) (w : string) (c : Ctx) :
  isKeyword w = false -> followUpWord E offI w c = Val (None, c).
Proof.
  unfold isKeyword, keywords, followUpWord; cbv zeta.
  generalize (Strings.ToLower (Strings.TrimRight w ").,;?!:")). intros key.
  rewrite !isCase_app. intros H.
  do 9 (apply orb_false_iff in H; destruct H as [?H H]).
  repeat match goal with Hc : isCase key _ = false |- _ => rewrite Hc; clear Hc end.
  reflexivity.
Qed.

(** The loop looks at a second word only if the first one left the response
    empty. *)
Lemma followUpWords_first_word (offI : Z) (w : string) (ws : list string)
    (c c1 : Ctx) :
  followUpWord E offI w c = Val (None, c1) ->
  (0 <? Strings.len (resp c1)) = true ->
  followUpWords E offI (w :: ws) c = Val (None, c1).
Proof.
  intros Hstep Hresp. cbn [followUpWords]. rewrite Hstep. cbn [bind].
  now rewrite Hresp.
Qed.

(** X20. When the response on entry is ASCII text with words in it and the
    first is no label of the switch, FollowUp returns at once and nothing
    has changed. *)
Lemma FollowUp_first_word_no_keyword (c : Ctx) (w : string) (ws : list string) :
  location (MState (msg c)) <> "" ->
  businesses (MState (msg c)) <> Some [] ->
  isASCII (resp c) = true ->
  Strings.Fields (resp c) = w :: ws ->
  isKeyword w = false ->
  FollowUp E c = Val (None, c).
Proof.
  intros Hloc Hbs _ Hwords Hkey. unfold FollowUp; cbv zeta.
  destruct (String.eqb (location (MState (msg c))) "") eqn:Heq;
    [apply String.eqb_eq in Heq; contradiction|].
  rewrite Hwords.
  assert (Hloop : followUpWords E (offset (MState (msg c))) (w :: ws) c
                  = Val (None, c)).
  { apply followUpWords_first_word.
    - now apply followUpWord_no_keyword.
    - eapply Fields_cons_nonempty; eassumption. }
  destruct (businesses (MState (msg c))) as [[|b bs]|]; [congruence| |];
    exact Hloop.
Qed.

End FollowUpLoop.

(** ** Pagination *)


Lemma Fields_cons_not_nil (s w : string) (ws : list string) :
  Strings.Fields s = w :: ws -> s <> "".
Proof. intros H Hs. subst s. discriminate. Qed.

Section Pagination.

Variable E : Env.


(** A response that begins with a pagination word makes FollowUp one search
    at the next offset. *)
Lemma FollowUp_on_trigger (c : Ctx) (w : string) (ws : list string) :
  0 <= offset (MState (msg c)) < 2 ^ 53 ->
  location (MState (msg c)) <> "" ->
  businesses (MState (msg c)) <> Some [] ->
  Strings.Fields (resp c) = w :: ws ->
  isTrigger w = true ->
  FollowUp E c
  = searchYelp E (setMsg c (setOffset (msg c) (offset (MState (msg c)) + 1))).
Proof.
  intros Hoff Hloc Hbs Hwords Htrig. unfold FollowUp, Float64.toInt; cbv zeta.
  destruct (String.eqb (location (MState (msg c))) "") eqn:Heq;
    [apply String.eqb_eq in Heq; contradiction|].
  rewrite Hwords.
  set (c0 := setMsg c (setOffset (msg c) (offset (MState (msg c)) + 1))).
  assert (Hloop : followUpWords E (offset (MState (msg c))) (w :: ws) c
                  = searchYelp E c0).
  { cbn [followUpWords].
    destruct (followUpWord_step E (offset (MState (msg c))) w c)
      as [[_ Hstep] | [Hno _]]; [|congruence].
    rewrite Hstep, (ofInt_succ _ Hoff). fold c0.
    destruct (searchYelp_returns E c0)
      as (c1 & Hsearch & _ & _ & _ & _ & Hresp); [cbn; lia|].
    rewrite Hsearch. cbn [bind].
    replace (0 <? Strings.len (resp c1)) with true; [reflexivity|].
    destruct Hresp as [Hsame | Hnew]; [|now rewrite Hnew].
    rewrite Hsame. symmetry. eapply Fields_cons_nonempty. exact Hwords. }
  destruct (businesses (MState (msg c))) as [[|b bs]|]; [congruence| |];
    exact Hloop.
Qed.

End Pagination.

(** X21. With a stored offset from 0 to below 2^53, the location known, the
    stored list not the empty list and an ASCII response buffer whose first
    word is a pagination word, FollowUp is one search at the next offset. *)
Theorem FollowUp_first_word_trigger (E : Env) (c : Ctx) (w : string)
    (ws : list string) :
  0 <= offset (MState (msg c)) < 2 ^ 53 ->
  location (MState (msg c)) <> "" ->
  businesses (MState (msg c)) <> Some [] ->
  isASCII (resp c) = true ->
  Strings.Fields (resp c) = w :: ws ->
  isTrigger w = true ->
  FollowUp E c
  = searchYelp E (setMsg c (setOffset (msg c) (offset (MState (msg c)) + 1))).
Proof.
  intros Hoff Hloc Hbs _ Hwords Htrig.
  exact (FollowUp_on_trigger E c w ws Hoff Hloc Hbs Hwords Htrig).
Qed.




(** ** The early return of the loop *)

(** C2 on the running code.  With "their phone" in the response on entry,
    the words are "their" and "phone"; FollowUp returns after "their",
    which is no keyword, because the response it tests is the text it is
    scanning: the response is still "their phone" and not the phone number.
    Only as the first word does "phone" give the display phone, unprefixed. *)
Theorem FollowUp_returns_after_first_word :
  let E := Scenario.serving [Scenario.torchys] in
  let st := Scenario.tacos [Scenario.torchys] 0 in
  Strings.Fields "their phone" = ["their"; "phone"]
  /\ FollowUp E (Scenario.turn st "their phone")
     = Val (None, Scenario.turn st "their phone")
  /\ resp (Scenario.turn st "their phone") <> DisplayPhone Scenario.torchys
  /\ FollowUp E (Scenario.turn st "Phone?")
     = Val (None, Scenario.turn st "(512) 555-0100").
Proof.
  cbv zeta. split; [reflexivity|]. split; [reflexivity|].
  split; [discriminate | reflexivity].
Qed.

(** ** Accessors past the end of the list *)

(** C1 on the running code.  A conversation with one stored business: the
    word "else" moves the offset to 1, the provider still has one business,
    the response is "That's all I could find." and the list of length 1 is
    stored with offset 1.  At that state each accessor indexes out of range,
    and so does the next FollowUp that asks for the phone. *)
Theorem accessors_index_past_the_end :
  let E := Scenario.serving [Scenario.torchys] in
  exists c1,
    FollowUp E (Scenario.turn (Scenario.tacos [Scenario.torchys] 0) "else")
      = Val (None, c1)
    /\ resp c1 = "That's all I could find."
    /\ businesses (MState (msg c1)) = Some [Scenario.torchys]
    /\ offset (MState (msg c1)) = 1
    /\ getRating E (msg c1) (offset (MState (msg c1))) = Panic IndexOutOfRange
    /\ getPhone (msg c1) (offset (MState (msg c1))) = Panic IndexOutOfRange
    /\ getURL (msg c1) (offset (MState (msg c1))) = Panic IndexOutOfRange
    /\ getAddress (msg c1) (offset (MState (msg c1))) = Panic IndexOutOfRange
    /\ FollowUp E (setResp c1 "phone") = Panic IndexOutOfRange.
Proof.
  cbv zeta. eexists. split; [reflexivity|].
  repeat split.
Qed.

(** ** Run *)

Lemma append_assoc (a b c : string) : ((a ++ b) ++ c)%string = (a ++ (b ++ c))%string.
Proof. induction a as [|x a IH]; cbn; [reflexivity | now rewrite IH]. Qed.

Lemma append_empty_r (a : string) : (a ++ "")%string = a.
Proof. induction a as [|x a IH]; cbn; [reflexivity | now rewrite IH]. Qed.

(** The loop [query += o + " "] appends the spaced tokens to what it
    started from. *)
Lemma query_loop (tokens : list string) (start : string) :
  fold_left (fun q o => q ++ (o ++ " ")) tokens start
  = (start ++ spaced tokens)%string.
Proof.
  revert start. induction tokens as [|t rest IH]; intros start; cbn [fold_left spaced].
  - now rewrite append_empty_r.
  - rewrite IH. now rewrite !append_assoc.
Qed.

Section RunTurn.

Variable E : Env.

(** The closing [if err := t.searchYelp(m, resp); err != nil] of a handler. *)
Lemma search_then_return (c : Ctx) :
  0 <= offset (MState (msg c)) ->
  exists c',
    bind (searchYelp E c)
         (fun r => let '(err, c') := r in
                   match err with
                   | Some e => Val (Some e, c')
                   | None => Val (None, c')
                   end)
    = Val (None, c')
    /\ query (MState (msg c')) = query (MState (msg c))
    /\ world c' = logSearch c.
Proof.
  intros Hoff.
  destruct (searchYelp_returns E c Hoff) as (c' & Hsearch & Hworld & Hq & _).
  exists c'. rewrite Hsearch. cbn [bind]. auto.
Qed.

(** When the first lookup comes back with a question, Run keeps the partial
    name, returns nil without a search, and writes the question into
    [m.Sentence]; the response is left as it was. *)
Lemma Run_first_question (c : Ctx) :
  let l1 := GetLocation E (lookups (world c)) (User (msg c)) in
  lerr l1 = None ->
  question l1 <> "" ->
  exists c',
    Run E c = Val (None, c')
    /\ location (MState (msg c'))
       = match loc l1 with Some p => dt.Name p | None => "" end
    /\ Sentence (msg c') = question l1
    /\ resp c' = resp c
    /\ requests (world c') = requests (world c).
Proof.
  cbv zeta. intros Herr Hq. apply len_pos_nonempty in Hq.
  unfold Run, locate, storeQuery, getLocation; cbv zeta.
  cbn [msg setMsg world setWorld User setState setQuery].
  rewrite Herr, Hq. eexists. split; [reflexivity|].
  unfold keepPartialName.
  destruct (loc (GetLocation E (lookups (world c)) (User (msg c)))) as [p|].
  - destruct (0 <? Strings.len (dt.Name p)) eqn:Hname; cbn.
    + repeat split.
    + destruct (dt.Name p); [repeat split | now rewrite len_cons_pos in Hname].
  - cbn. repeat split.
Qed.

End RunTurn.

(** C6 on the running code.  The first lookup returns the question "Where
    are you?": Run returns nil and sends nothing to the provider, but the
    question is written into [m.Sentence] and the response stays empty.
    When it is the second lookup that returns the question, the same Run
    does write it into the response. *)
Theorem Run_first_question_not_in_response :
  question (GetLocation Scenario.asking 0 7) = "Where are you?"
  /\ (exists c',
        Run Scenario.asking Scenario.findTacos = Val (None, c')
        /\ resp c' = ""
        /\ Sentence (msg c') = "Where are you?"
        /\ requests (world c') = [])
  /\ (exists c',
        Run Scenario.askingLater Scenario.findTacos = Val (None, c')
        /\ resp c' = "Where are you?"
        /\ Sentence (msg c') = "find tacos"
        /\ requests (world c') = []).
Proof.
  split; [reflexivity|].
  split; eexists; (split; [reflexivity|]); repeat split.
Qed.

(** ** Worked conversations *)

Example Fields_splits_on_runs_of_space :
  Strings.Fields "  Ok. How  does this	look? "
  = ["Ok."; "How"; "does"; "this"; "look?"].
Proof. reflexivity. Qed.

Example TrimRight_only_trailing :
  Strings.TrimRight "St.;a)?!" ").,;?!:" = "St.;a"
  /\ Strings.TrimRight "?!" ").,;?!:" = "".
Proof. split; reflexivity. Qed.

Example ToLower_ascii : Strings.ToLower "PhoNe-9" = "phone-9".
Proof. reflexivity. Qed.

Example words_of_the_switch :
  isTrigger "Else?" = true /\ isTrigger "elsewhere" = false
  /\ isKeyword "Phone." = true /\ isKeyword "their" = false.
Proof. repeat split. Qed.

(** "find tacos" in Austin: one request for one result, and the first
    business is presented with its street address. *)
Example find_tacos_in_Austin :
  exists c',
    Run (Scenario.serving [Scenario.torchys]) Scenario.findTacos = Val (None, c')
    /\ resp c' = "Ok. How does this place look? Torchy's at 101 Main St"
    /\ MState (msg c') = Scenario.tacos [Scenario.torchys] 0
    /\ requests (world c')
       = [("http://api.yelp.com/v2/search",
           [("term", ["tacos "]); ("location", ["Austin"]); ("limit", ["1"])])].
Proof. eexists. split; [reflexivity|]. repeat split. Qed.

(** "something else" moves on to the second business with a request for
    two results. *)
Example something_else :
  exists c',
    FollowUp (Scenario.serving [Scenario.torchys; Scenario.cart])
             (Scenario.turn (Scenario.tacos [Scenario.torchys] 0) "something else")
      = Val (None, c')
    /\ resp c' = "What about Taco Cart instead?"
    /\ offset (MState (msg c')) = 1
    /\ requests (world c')
       = [("http://api.yelp.com/v2/search",
           [("term", ["tacos "]); ("location", ["Austin"]); ("limit", ["2"])])].
Proof. eexists. split; [reflexivity|]. repeat split. Qed.

(** Each action of the switch on the first business. *)
Example actions_on_torchys :
  let E := Scenario.serving [Scenario.torchys] in
  let st := Scenario.tacos [Scenario.torchys] 0 in
  FollowUp E (Scenario.turn st "rating") =
    Val (None, Scenario.turn st "It has a 4.5 star review on Yelp")
  /\ FollowUp E (Scenario.turn st "call") =
    Val (None, Scenario.turn st "You can reach them here: (512) 555-0100")
  /\ FollowUp E (Scenario.turn st "Address:") =
    Val (None, Scenario.turn st "It's at 101 Main St in Austin, TX 78701")
  /\ FollowUp E (Scenario.turn st "menu") =
    Val (None, Scenario.turn st
                 "Yelp might have a menu... http://m.yelp.com/biz/torchys")
  /\ FollowUp E (Scenario.turn st "thanks!") =
    Val (None, Scenario.turn st "You're welcome!").
Proof. cbv zeta. repeat split. Qed.

(** * Further properties of the handlers *)

(** ** The search client, case by case *)

Lemma reply_cases (r : httpReply) :
  providerFailure r \/ exists data, r = Reply 200 (Some data).
Proof.
  destruct r as [|code [data|]].
  - left. apply transportFailure.
  - destruct (Z.eq_dec code 200) as [->|Hcode].
    + right. now exists data.
    + left. now apply statusFailure.
  - destruct (Z.eq_dec code 200) as [->|Hcode].
    + left. apply decodeFailure.
    + left. now apply statusFailure.
Qed.

Lemma providerFailure_not_success (r : httpReply) (data : yelpResp) :
  providerFailure r -> r <> Reply 200 (Some data).
Proof. intros Hfail Heq. subst r. inversion Hfail. congruence. Qed.

Section SearchCases.

Variable E : Env.

Lemma searchYelp_on_negative (c : Ctx) (data : yelpResp) :
  providerReply E c = Reply 200 (Some data) ->
  Businesses data <> [] ->
  offset (MState (msg c)) < 0 ->
  searchYelp E c = Panic IndexOutOfRange.
Proof.
  unfold providerReply. intros Hr Hne Hneg.
  unfold searchYelp, get, Float64.toInt; cbv zeta. rewrite Hr. cbn [negb Z.eqb Pos.eqb].
  replace (Z.of_nat (List.length (Businesses data)) =? 0) with false
    by (symmetry; apply Z.eqb_neq; destruct (Businesses data);
        [congruence | cbn [List.length]; lia]).
  replace (Z.of_nat (List.length (Businesses data)) <=? offset (MState (msg c)))
    with false by (symmetry; apply Z.leb_gt; lia).
  rewrite index_out_of_range by (left; exact Hneg). reflexivity.
Qed.

Lemma searchYelp_ends (c : Ctx) : searchEnd E c (searchYelp E c).
Proof.
  destruct (reply_cases (providerReply E c)) as [Hfail | (data & Hr)].
  - rewrite (searchYelp_on_failure E c Hfail). now apply endFailure.
  - destruct (Businesses data) as [|b0 bs] eqn:Hbs.
    + rewrite (searchYelp_on_empty E c data Hr Hbs). now apply endEmpty with data.
    + assert (Hne : Businesses data <> []) by congruence.
      assert (Hlen : 0 < Z.of_nat (List.length (Businesses data)))
        by (rewrite Hbs; cbn [List.length]; lia).
      destruct (Z_lt_ge_dec (offset (MState (msg c))) 0) as [Hneg|Hpos].
      * rewrite (searchYelp_on_negative c data Hr Hne Hneg).
        now apply endNegative with data.
      * destruct (Z_le_gt_dec (Z.of_nat (List.length (Businesses data)))
                              (offset (MState (msg c)))) as [Hle|Hgt].
        -- rewrite (searchYelp_on_short E c data Hr (conj Hlen Hle)).
           now apply endShort.
        -- destruct (index_in_range (Businesses data) (offset (MState (msg c))))
             as (b & _ & Hnth); [lia|].
           rewrite (searchYelp_on_hit E c data b Hr ltac:(lia) Hnth).
           apply endHit; [exact Hr | lia | exact Hnth].
Qed.

End SearchCases.

Section SearchFacts.

Variable E : Env.

(** What every returning search leaves alone, and what it writes. *)
Lemma searchYelp_frame (c : Ctx) (e : option error) (c' : Ctx) :
  searchYelp E c = Val (e, c') ->
  e = None
  /\ world c' = logSearch c
  /\ setBusinesses (msg c') (businesses (MState (msg c))) = msg c
  /\ ((providerFailure (providerReply E c)
       /\ businesses (MState (msg c')) = businesses (MState (msg c))
       /\ resp c' = resp c)
      \/ (exists data,
            providerReply E c = Reply 200 (Some data)
            /\ businesses (MState (msg c')) = Some (Businesses data)
            /\ (0 <? Strings.len (resp c')) = true)).
Proof.
  intros Hrun. pose proof (searchYelp_ends E c) as Hend. rewrite Hrun in Hend.
  assert (Hmsg : forall bs,
            setBusinesses (setBusinesses (msg c) bs) (businesses (MState (msg c)))
            = msg c).
  { intros bs. destruct c as [[u s si [q l o b]] r w]. reflexivity. }
  inversion Hend as [Hfail Heq | data Hr Hbs Heq | data Hr Hlen Heq
                     | data b Hr Hlo Hnth Heq | data Hr Hne Hneg Heq]; subst.
  - split; [reflexivity|]. split; [reflexivity|]. split.
    + destruct c as [[u s si [q l o b]] r w]. reflexivity.
    + left. auto.
  - split; [reflexivity|]. split; [reflexivity|]. split; [apply Hmsg|].
    right. exists data. cbn. rewrite Hbs. auto.
  - split; [reflexivity|]. split; [reflexivity|]. split; [apply Hmsg|].
    right. exists data. cbn. auto.
  - split; [reflexivity|]. split; [reflexivity|]. split; [apply Hmsg|].
    right. exists data. cbn [msg setResp setWorld setMsg setBusinesses setState
                              MState businesses resp].
    split; [exact Hr|]. split; [reflexivity|].
    destruct (offset (MState (msg c)) =? 0); apply len_cons_pos.
Qed.

End SearchFacts.

(** X1. With a stored offset below 2^63, a search panics in one situation
    only: the provider returns at least one business while the offset is
    negative; the panic is the index out of range of
    [data.Businesses[offI]]. *)
Theorem searchYelp_panics_only_below_zero (E : Env) (c : Ctx) (p : panic) :
  offset (MState (msg c)) < 2 ^ 63 ->
  (searchYelp E c = Panic p
   <-> p = IndexOutOfRange
       /\ offset (MState (msg c)) < 0
       /\ exists data,
            providerReply E c = Reply 200 (Some data)
            /\ Businesses data <> []).
Proof.
  intros _. split.
  - intros Hrun. pose proof (searchYelp_ends E c) as Hend. rewrite Hrun in Hend.
    inversion Hend as [| | | | data Hr Hne Hneg Heq]; subst.
    split; [reflexivity|]. split; [exact Hneg|]. now exists data.
  - intros (-> & Hneg & data & Hr & Hne).
    now apply searchYelp_on_negative with data.
Qed.

(** X2. With a stored offset from 0 to below 2^53 a search always returns
    nil, has sent exactly one request, the one for the stored query and
    location with limit offset + 1, has called the resolver not at all, and
    has changed nothing of the message but the stored businesses. *)
Theorem searchYelp_sends_one_request (E : Env) (c : Ctx) :
  0 <= offset (MState (msg c)) < 2 ^ 53 ->
  exists c',
    searchYelp E c = Val (None, c')
    /\ requests (world c')
       = (requests (world c)
          ++ [("http://api.yelp.com/v2/search",
               [("term", [query (MState (msg c))]);
                ("location", [location (MState (msg c))]);
                ("limit", [Strings.sprintf_0f (offset (MState (msg c)) + 1)])])])%list
    /\ lookups (world c') = lookups (world c)
    /\ setBusinesses (msg c') (businesses (MState (msg c))) = msg c.
Proof.
  intros Hoff.
  destruct (searchYelp_returns E c (proj1 Hoff)) as (c' & Hrun & _).
  destruct (searchYelp_frame E c None c' Hrun) as (_ & Hworld & Hmsg & _).
  exists c'. split; [exact Hrun|]. rewrite Hworld.
  unfold logSearch, searchRequest. cbn [requests lookups].
  rewrite (add_one _ Hoff). auto.
Qed.

Lemma searchYelp_sends_one_request_witness :
  exists c',
    searchYelp Dialogs.unavailable
               (Scenario.turn (Scenario.tacos [Scenario.torchys] 2) "")
      = Val (None, c')
    /\ requests (world c') = [searchRequest "tacos " "Austin" 2].
Proof.
  destruct (searchYelp_sends_one_request Dialogs.unavailable
              (Scenario.turn (Scenario.tacos [Scenario.torchys] 2) "")
              ltac:(cbn; lia))
    as (c' & Hrun & Hreqs & _).
  exists c'. split; [exact Hrun | exact Hreqs].
Defined.

(** X3. With a stored offset from 0 to below 2^63, every request that
    succeeds replaces the stored businesses with the list returned,
    whatever was stored, and writes a response that is not empty. *)
Theorem searchYelp_success_replaces_businesses (E : Env) (c : Ctx)
    (data : yelpResp) :
  providerReply E c = Reply 200 (Some data) ->
  0 <= offset (MState (msg c)) < 2 ^ 63 ->
  exists c',
    searchYelp E c = Val (None, c')
    /\ businesses (MState (msg c')) = Some (Businesses data)
    /\ resp c' <> "".
Proof.
  intros Hr [Hoff _].
  destruct (searchYelp_returns E c Hoff) as (c' & Hrun & _).
  destruct (searchYelp_frame E c None c' Hrun)
    as (_ & _ & _ & [(Hfail & _) | (data' & Hr' & Hbs & Hresp)]).
  - exfalso. now apply (providerFailure_not_success _ data Hfail).
  - exists c'. split; [exact Hrun|]. split.
    + rewrite Hbs. congruence.
    + now apply len_pos_nonempty.
Qed.

Lemma searchYelp_success_replaces_businesses_witness :
  exists c',
    searchYelp (Scenario.serving [Scenario.cart])
               (Scenario.turn (Scenario.tacos [Scenario.torchys] 3) "")
      = Val (None, c')
    /\ businesses (MState (msg c')) = Some [Scenario.cart]
    /\ resp c' <> "".
Proof.
  exact (searchYelp_success_replaces_businesses
           (Scenario.serving [Scenario.cart])
           (Scenario.turn (Scenario.tacos [Scenario.torchys] 3) "")
           {| Businesses := [Scenario.cart] |} eq_refl ltac:(cbn; lia)).
Defined.

(** X5. [client.get] hands back decoded data exactly when the reply has
    status 200 and a body that decodes; a reply with another status gives
    the error that carries that status; in every case one request, the one
    asked for, is added to the log. *)
Theorem get_succeeds_iff (E : Env) (w : World) (urlStr : string)
    (params : Values) :
  (forall v,
     fst (get E w urlStr params) = inr v
     <-> yelp E (List.length (requests w)) urlStr params = Reply 200 (Some v))
  /\ (forall code,
        fst (get E w urlStr params) = inl (ErrStatus code)
        <-> code <> 200
            /\ exists body,
                 yelp E (List.length (requests w)) urlStr params = Reply code body)
  /\ requests (snd (get E w urlStr params))
     = (requests w ++ [(urlStr, params)])%list
  /\ lookups (snd (get E w urlStr params)) = lookups w.
Proof.
  unfold get; cbv zeta.
  destruct (yelp E (List.length (requests w)) urlStr params) as [|status body].
  - cbn [fst snd requests lookups].
    split; [intros v; split; discriminate|].
    split; [|split; reflexivity].
    intros code. split; [discriminate|].
    intros (_ & body & Hbody). discriminate.
  - destruct (Z.eq_dec status 200) as [->|Hstatus].
    + cbn [negb Z.eqb Pos.eqb].
      destruct body as [data|]; cbn [fst snd requests lookups].
      * split; [intros v; split; congruence|].
        split; [|split; reflexivity].
        intros code. split; [discriminate|].
        intros (Hcode & body & Hbody). congruence.
      * split; [intros v; split; discriminate|].
        split; [|split; reflexivity].
        intros code. split; [discriminate|].
        intros (Hcode & body & Hbody). congruence.
    + replace (status =? 200) with false by (symmetry; now apply Z.eqb_neq).
      cbn [negb fst snd requests lookups].
      split; [intros v; split; [discriminate | congruence]|].
      split; [|split; reflexivity].
      intros code. split.
      * intros Hcode. injection Hcode as <-. split; [exact Hstatus|].
        now exists body.
      * intros (_ & body' & Hbody). congruence.
Qed.

(** ** FollowUp beyond the first word *)

Lemma Fields_allSpace (s : string) :
  allSpace s = true -> Strings.Fields s = [].
Proof.
  unfold Strings.Fields. induction s as [|a s IH]; cbn; [reflexivity|].
  intros H. apply andb_prop in H. destruct H as [Ha Hs].
  rewrite Ha. now apply IH.
Qed.

Lemma Fields_nil_allSpace (s : string) :
  Strings.Fields s = [] -> allSpace s = true.
Proof.
  unfold Strings.Fields. induction s as [|a s IH]; cbn; [reflexivity|].
  destruct (Strings.isSpace a); cbn.
  - exact IH.
  - intros H. exfalso. revert H. apply fieldsFrom_nonempty. discriminate.
Qed.

Lemma frame_projections (m m' : Msg) (bs : option (list Business)) :
  setBusinesses m' bs = m ->
  User m' = User m /\ Sentence m' = Sentence m /\ SI m' = SI m
  /\ query (MState m') = query (MState m)
  /\ location (MState m') = location (MState m)
  /\ offset (MState m') = offset (MState m).
Proof. intros <-. cbn. auto 10. Qed.

Section FollowUpFacts.

Variable E : Env.

Lemma FollowUp_empty_location (c : Ctx) :
  location (MState (msg c)) = "" ->
  FollowUp E c = searchYelp E (setMsg c (setLocation (msg c) (Sentence (msg c)))).
Proof.
  intros Hloc. unfold FollowUp; cbv zeta. rewrite Hloc. cbn [String.eqb].
  destruct (searchYelp E _) as [[[e|] c']|]; reflexivity.
Qed.

Lemma FollowUp_known_location (c : Ctx) :
  location (MState (msg c)) <> "" ->
  businesses (MState (msg c)) <> Some [] ->
  FollowUp E c
  = followUpWords E (offset (MState (msg c))) (Strings.Fields (resp c)) c.
Proof.
  intros Hloc Hbs. unfold FollowUp; cbv zeta.
  destruct (String.eqb (location (MState (msg c))) "") eqn:Heq;
    [apply String.eqb_eq in Heq; contradiction|].
  destruct (businesses (MState (msg c))) as [[|b bs]|]; [congruence| |];
    reflexivity.
Qed.

(** When the response is not empty on entry, a word leaves it empty only
    through an empty phone number or an empty phrase of the host. *)
Lemma followUpWord_writes (offI : Z) (w : string) (c : Ctx)
    (e : option error) (c1 : Ctx) :
  0 <= offI ->
  (0 <? Strings.len (resp c)) = true ->
  Positive E <> "" ->
  Welcome E <> "" ->
  getPhone (msg c) offI <> Val "" ->
  followUpWord E offI w c = Val (e, c1) ->
  e = None /\ (0 <? Strings.len (resp c1)) = true.
Proof.
  intros Hoff Hresp Hpos Hwel Hphone.
  unfold followUpWord; cbv zeta.
  generalize (Strings.ToLower (Strings.TrimRight w ").,;?!:")). intros key.
  destruct (isCase key ["rated"; "rating"; "review"; "recommend"; "recommended"]).
  { destruct (getRating E (msg c) offI); cbn [bind]; [|discriminate].
    intros [= <- <-]. split; [reflexivity | apply len_cons_pos]. }
  destruct (isCase key ["number"; "phone"]).
  { destruct (getPhone (msg c) offI) as [s|]; cbn [bind]; [|discriminate].
    intros [= <- <-]. split; [reflexivity|].
    apply len_pos_nonempty. cbn. congruence. }
  destruct (isCase key ["call"]).
  { destruct (getPhone (msg c) offI); cbn [bind]; [|discriminate].
    intros [= <- <-]. split; [reflexivity | apply len_cons_pos]. }
  destruct (isCase key ["information"; "info"]).
  { destruct (getURL (msg c) offI); cbn [bind]; [|discriminate].
    intros [= <- <-]. split; [reflexivity | apply len_cons_pos]. }
  destruct (isCase key ["where"; "location"; "address"; "direction";
                        "directions"; "addr"]).
  { destruct (getAddress (msg c) offI); cbn [bind]; [|discriminate].
    intros [= <- <-]. split; [reflexivity | apply len_cons_pos]. }
  destruct (isCase key ["pictures"; "pic"; "pics"]).
  { destruct (getURL (msg c) offI); cbn [bind]; [|discriminate].
    intros [= <- <-]. split; [reflexivity | apply len_cons_pos]. }
  destruct (isCase key ["menu"; "have"]).
  { destruct (getURL (msg c) offI); cbn [bind]; [|discriminate].
    intros [= <- <-]. split; [reflexivity | apply len_cons_pos]. }
  destruct (isCase key ["not"; "else"; "no"; "anything"; "something"]).
  { intros Hrun.
    destruct (searchYelp_frame E _ e c1 Hrun)
      as (-> & _ & _ & [(_ & _ & Hsame) | (data & _ & _ & Hnew)]).
    - split; [reflexivity|]. now rewrite Hsame.
    - split; [reflexivity | exact Hnew]. }
  destruct (isCase key ["good"; "great"; "yes"; "perfect"]).
  { intros [= <- <-]. split; [reflexivity | now apply len_pos_nonempty]. }
  destruct (isCase key ["thanks"; "thank"]); intros [= <- <-];
    (split; [reflexivity|]); [now apply len_pos_nonempty | exact Hresp].
Qed.

End FollowUpFacts.

Lemma FollowUp_on_empty_location (E : Env) (c : Ctx) :
  location (MState (msg c)) = "" ->
  0 <= offset (MState (msg c)) ->
  exists c',
    FollowUp E c = Val (None, c')
    /\ location (MState (msg c')) = Sentence (msg c)
    /\ requests (world c')
       = (requests (world c)
          ++ [searchRequest (query (MState (msg c))) (Sentence (msg c))
                            (offset (MState (msg c)))])%list.
Proof.
  intros Hloc Hoff. rewrite (FollowUp_empty_location E c Hloc).
  destruct (searchYelp_returns E (setMsg c (setLocation (msg c) (Sentence (msg c)))))
    as (c' & Hrun & Hworld & _ & Hl & _); [exact Hoff|].
  exists c'. split; [exact Hrun|]. split; [exact Hl|].
  rewrite Hworld. reflexivity.
Qed.

(** X6. While the stored location is empty and the stored offset is from 0
    to below 2^53, FollowUp takes the user's sentence as the location,
    whatever the response buffer and the stored businesses hold: it stores
    the sentence, sends one request for it, with limit offset + 1, and
    returns nil. *)
Theorem FollowUp_takes_sentence_as_location (E : Env) (c : Ctx) :
  location (MState (msg c)) = "" ->
  0 <= offset (MState (msg c)) < 2 ^ 53 ->
  exists c',
    FollowUp E c = Val (None, c')
    /\ location (MState (msg c')) = Sentence (msg c)
    /\ requests (world c')
       = (requests (world c)
          ++ [("http://api.yelp.com/v2/search",
               [("term", [query (MState (msg c))]);
                ("location", [Sentence (msg c)]);
                ("limit", [Strings.sprintf_0f (offset (MState (msg c)) + 1)])])])%list.
Proof.
  intros Hloc Hoff.
  destruct (FollowUp_on_empty_location E c Hloc (proj1 Hoff))
    as (c' & Hrun & Hl & Hreqs).
  exists c'. split; [exact Hrun|]. split; [exact Hl|].
  rewrite Hreqs. unfold searchRequest. now rewrite (add_one _ Hoff).
Qed.

Lemma FollowUp_takes_sentence_as_location_witness :
  exists c',
    FollowUp (Scenario.serving [Scenario.torchys])
             (nextTurn (Scenario.turn (freshState ["tacos"]) "") "Austin" "")
      = Val (None, c')
    /\ location (MState (msg c')) = "Austin"
    /\ requests (world c') = [searchRequest "tacos " "Austin" 0].
Proof.
  exact (FollowUp_takes_sentence_as_location
           (Scenario.serving [Scenario.torchys])
           (nextTurn (Scenario.turn (freshState ["tacos"]) "") "Austin" "")
           eq_refl ltac:(cbn; lia)).
Defined.

(** X7. When the response buffer holds no word on entry (it is empty or
    white space), the location is known and the stored list is not the
    empty list, FollowUp returns nil and has done nothing at all. *)
Theorem FollowUp_without_words (E : Env) (c : Ctx) :
  location (MState (msg c)) <> "" ->
  businesses (MState (msg c)) <> Some [] ->
  allSpace (resp c) = true ->
  FollowUp E c = Val (None, c).
Proof.
  intros Hloc Hbs Hspace. rewrite (FollowUp_known_location E c Hloc Hbs).
  now rewrite (Fields_allSpace _ Hspace).
Qed.

Lemma FollowUp_without_words_witness :
  FollowUp (Scenario.serving [Scenario.torchys])
           (Scenario.turn (Scenario.tacos [Scenario.torchys] 0) "")
  = Val (None, Scenario.turn (Scenario.tacos [Scenario.torchys] 0) "").
Proof.
  apply (FollowUp_without_words (Scenario.serving [Scenario.torchys])
           (Scenario.turn (Scenario.tacos [Scenario.torchys] 0) ""));
    [discriminate | discriminate | reflexivity].
Defined.

(** X8. With the location known, businesses stored, a stored offset from 0
    to below 2^63 and an ASCII response buffer, FollowUp is the action of
    the first word of the buffer and of no other word, provided that action
    cannot write an empty response: the phone at the offset is not the
    empty string and the host's two phrases are not. *)
Theorem FollowUp_acts_on_first_word (E : Env) (c : Ctx) (w : string)
    (ws : list string) :
  location (MState (msg c)) <> "" ->
  businesses (MState (msg c)) <> Some [] ->
  0 <= offset (MState (msg c)) < 2 ^ 63 ->
  isASCII (resp c) = true ->
  Strings.Fields (resp c) = w :: ws ->
  Positive E <> "" ->
  Welcome E <> "" ->
  getPhone (msg c) (offset (MState (msg c))) <> Val "" ->
  FollowUp E c = followUpWord E (offset (MState (msg c))) w c.
Proof.
  intros Hloc Hbs [Hoff _] _ Hwords Hpos Hwel Hphone.
  rewrite (FollowUp_known_location E c Hloc Hbs), Hwords.
  cbn [followUpWords].
  destruct (followUpWord E (offset (MState (msg c))) w c) as [[e c1]|] eqn:Hword;
    cbn [bind]; [|reflexivity].
  destruct (followUpWord_writes E _ w c e c1 Hoff
              (Fields_cons_nonempty _ _ _ Hwords) Hpos Hwel Hphone Hword)
    as (-> & Hresp).
  now rewrite Hresp.
Qed.

Lemma FollowUp_acts_on_first_word_witness :
  FollowUp (Scenario.serving [Scenario.torchys])
           (Scenario.turn (Scenario.tacos [Scenario.torchys] 0)
                          "where is the menu")
  = Val (None, Scenario.turn (Scenario.tacos [Scenario.torchys] 0)
                             "It's at 101 Main St in Austin, TX 78701").
Proof.
  rewrite (FollowUp_acts_on_first_word (Scenario.serving [Scenario.torchys])
             (Scenario.turn (Scenario.tacos [Scenario.torchys] 0)
                            "where is the menu")
             "where" ["is"; "the"; "menu"]);
    [reflexivity | discriminate | discriminate | cbn; lia | reflexivity
     | reflexivity | discriminate | discriminate | discriminate].
Defined.

Lemma FollowUp_first_word_no_keyword_witness :
  FollowUp (Scenario.serving [Scenario.torchys])
           (Scenario.turn (Scenario.tacos [Scenario.torchys] 0)
                          "Ok. How does this place look? Torchy's at 101 Main St")
  = Val (None,
         Scenario.turn (Scenario.tacos [Scenario.torchys] 0)
                       "Ok. How does this place look? Torchy's at 101 Main St").
Proof.
  apply (FollowUp_first_word_no_keyword (Scenario.serving [Scenario.torchys])
           (Scenario.turn (Scenario.tacos [Scenario.torchys] 0)
                          "Ok. How does this place look? Torchy's at 101 Main St")
           "Ok."
           ["How"; "does"; "this"; "place"; "look?"; "Torchy's"; "at"; "101";
            "Main"; "St"]);
    [discriminate | discriminate | reflexivity | reflexivity | reflexivity].
Defined.

Lemma FollowUp_first_word_trigger_witness :
  FollowUp (Scenario.serving [Scenario.torchys; Scenario.cart])
           (Scenario.turn (Scenario.tacos [Scenario.torchys] 0) "No, not that one")
  = searchYelp (Scenario.serving [Scenario.torchys; Scenario.cart])
               (Scenario.turn (Scenario.tacos [Scenario.torchys] 1)
                              "No, not that one").
Proof.
  apply (FollowUp_first_word_trigger
           (Scenario.serving [Scenario.torchys; Scenario.cart])
           (Scenario.turn (Scenario.tacos [Scenario.torchys] 0) "No, not that one")
           "No," ["not"; "that"; "one"]);
    [cbn; lia | discriminate | discriminate | reflexivity | reflexivity
     | reflexivity].
Defined.

(** ** FollowUp on a state that a search hit has left *)

Section FollowUpSafe.

Variable E : Env.
Variable bs : list Business.
Variable b : Business.
Variable offI : Z.
Hypothesis Hoff : 0 <= offI.
Hypothesis Hnth : nth_error bs (Z.to_nat offI) = Some b.
Hypothesis Hline : DisplayAddress (Location b) <> [].

Lemma getAddress_defined (m : Msg) :
  businesses (MState m) = Some bs ->
  exists a, getAddress m offI = Val a.
Proof.
  intros Hbs. rewrite (getAddress_in_range m offI bs b Hbs Hoff Hnth).
  destruct (DisplayAddress (Location b)) as [|l1 [|l2 more]];
    [congruence | eauto | eauto].
Qed.

(** A word does not panic on such a state; it keeps the stored list unless
    it writes a response. *)
Lemma followUpWord_defined (w : string) (c : Ctx) :
  businesses (MState (msg c)) = Some bs ->
  exists c1,
    followUpWord E offI w c = Val (None, c1)
    /\ (businesses (MState (msg c1)) = Some bs
        \/ (0 <? Strings.len (resp c1)) = true).
Proof.
  intros Hbs.
  destruct (accessors_in_range E (msg c) offI bs b Hbs Hoff Hnth)
    as (Hrating & Hurl & Hphone).
  destruct (getAddress_defined (msg c) Hbs) as (a & Haddr).
  unfold followUpWord; cbv zeta. rewrite Hrating, Hurl, Hphone, Haddr.
  cbn [bind].
  generalize (Strings.ToLower (Strings.TrimRight w ").,;?!:")). intros key.
  repeat match goal with
         | |- context [if isCase key ?l then Val ?v else _] =>
             destruct (isCase key l); [eexists; split; [reflexivity | left; exact Hbs]|]
         end.
  destruct (isCase key ["not"; "else"; "no"; "anything"; "something"]).
  - destruct (searchYelp_returns E
                (setMsg c (setOffset (msg c) (Float64.ofInt (offI + 1)))))
      as (c1 & Hrun & _); [cbn; now apply ofInt_succ_nonneg|].
    exists c1. split; [exact Hrun|].
    destruct (searchYelp_frame E _ None c1 Hrun)
      as (_ & _ & _ & [(_ & Hsame & _) | (data & _ & _ & Hnew)]).
    + left. rewrite Hsame. exact Hbs.
    + right. exact Hnew.
  - repeat match goal with
           | |- context [if isCase key ?l then Val ?v else _] =>
               destruct (isCase key l);
               [eexists; split; [reflexivity | left; exact Hbs]|]
           end.
    eexists. split; [reflexivity | left; exact Hbs].
Qed.

Lemma followUpWords_defined (words : list string) :
  forall c : Ctx,
    businesses (MState (msg c)) = Some bs ->
    exists c', followUpWords E offI words c = Val (None, c').
Proof.
  induction words as [|w ws IH]; intros c Hbs; cbn [followUpWords].
  - now exists c.
  - destruct (followUpWord_defined w c Hbs) as (c1 & Hword & Hkeep).
    rewrite Hword. cbn [bind].
    destruct (0 <? Strings.len (resp c1)) eqn:Hresp; [now exists c1|].
    destruct Hkeep as [Hbs1 | Hnew]; [|congruence].
    exact (IH c1 Hbs1).
Qed.

End FollowUpSafe.

(** X9. FollowUp neither panics nor returns an error when the stored offset
    is a valid index into the stored businesses and the business there has
    a display-address line, whatever the response buffer holds and however
    the provider answers. *)
Theorem FollowUp_safe_in_range (E : Env) (c : Ctx) (bs : list Business)
    (b : Business) :
  businesses (MState (msg c)) = Some bs ->
  0 <= offset (MState (msg c)) ->
  nth_error bs (Z.to_nat (offset (MState (msg c)))) = Some b ->
  DisplayAddress (Location b) <> [] ->
  exists c', FollowUp E c = Val (None, c').
Proof.
  intros Hbs Hoff Hnth Hline.
  destruct (String.eqb (location (MState (msg c))) "") eqn:Hloc.
  - apply String.eqb_eq in Hloc. rewrite (FollowUp_empty_location E c Hloc).
    destruct (searchYelp_returns E
                (setMsg c (setLocation (msg c) (Sentence (msg c)))))
      as (c' & Hrun & _); [exact Hoff|].
    now exists c'.
  - apply String.eqb_neq in Hloc.
    rewrite (FollowUp_known_location E c Hloc).
    + exact (followUpWords_defined E bs b _ Hoff Hnth Hline _ c Hbs).
    + rewrite Hbs. intros [= ->]. destruct (Z.to_nat _); discriminate.
Qed.

Lemma FollowUp_safe_in_range_witness :
  exists c',
    FollowUp Scenario.down
             (Scenario.turn
                (Scenario.tacos [Scenario.cart; Scenario.torchys] 1)
                "else, where?")
    = Val (None, c').
Proof.
  exact (FollowUp_safe_in_range Scenario.down
           (Scenario.turn (Scenario.tacos [Scenario.cart; Scenario.torchys] 1)
                          "else, where?")
           [Scenario.cart; Scenario.torchys] Scenario.torchys
           eq_refl ltac:(cbn; lia) eq_refl ltac:(discriminate)).
Defined.

(** X10. When the value under "businesses" is nil and the location is
    known, the guard for the empty list does not apply, and a response
    buffer that begins with a word of a case that reads the business makes
    FollowUp panic on the type assertion of the accessor. *)
Theorem FollowUp_nil_businesses (E : Env) (c : Ctx) (w : string)
    (ws : list string) :
  location (MState (msg c)) <> "" ->
  businesses (MState (msg c)) = None ->
  Strings.Fields (resp c) = w :: ws ->
  readsBusiness w = true ->
  FollowUp E c = Panic TypeAssertion.
Proof.
  intros Hloc Hbs Hwords Hreads.
  rewrite (FollowUp_known_location E c Hloc) by (rewrite Hbs; discriminate).
  rewrite Hwords. cbn [followUpWords].
  unfold readsBusiness, normal in Hreads.
  unfold followUpWord, getRating, getPhone, getURL, getAddress, stateBusinesses;
    cbv zeta.
  rewrite Hbs. cbn [bind].
  revert Hreads.
  generalize (Strings.ToLower (Strings.TrimRight w ").,;?!:")). intros key.
  rewrite !isCase_app. intros Hreads.
  repeat match goal with
         | |- context [if isCase key ?l then Panic _ else _] =>
             destruct (isCase key l); [reflexivity|]
         end.
  discriminate Hreads.
Qed.

Lemma FollowUp_nil_businesses_witness :
  FollowUp (Scenario.serving [Scenario.torchys])
           (Scenario.turn {| query := "tacos "; location := "Austin";
                             offset := 0; businesses := None |}
                          "Pics, please")
  = Panic TypeAssertion.
Proof.
  apply (FollowUp_nil_businesses (Scenario.serving [Scenario.torchys])
           (Scenario.turn {| query := "tacos "; location := "Austin";
                             offset := 0; businesses := None |}
                          "Pics, please")
           "Pics," ["please"]);
    [discriminate | reflexivity | reflexivity | reflexivity].
Defined.

(** ** Upper case and trailing punctuation *)

Lemma toLowerByte_idem (a : ascii) :
  Strings.toLowerByte (Strings.toLowerByte a) = Strings.toLowerByte a.
Proof.
  destruct a as [[] [] [] [] [] [] [] []]; vm_compute; reflexivity.
Qed.

Lemma contains_toLowerByte (a : ascii) :
  Strings.contains ").,;?!:" (Strings.toLowerByte a)
  = Strings.contains ").,;?!:" a.
Proof.
  destruct a as [[] [] [] [] [] [] [] []]; vm_compute; reflexivity.
Qed.

Lemma ToLower_idem (s : string) :
  Strings.ToLower (Strings.ToLower s) = Strings.ToLower s.
Proof.
  induction s as [|a s IH]; cbn [Strings.ToLower]; [reflexivity|].
  now rewrite toLowerByte_idem, IH.
Qed.

Lemma TrimRight_idem (s cutset : string) :
  Strings.TrimRight (Strings.TrimRight s cutset) cutset
  = Strings.TrimRight s cutset.
Proof.
  induction s as [|a s IH]; cbn [Strings.TrimRight]; [reflexivity|].
  destruct (Strings.TrimRight s cutset) as [|d kept] eqn:Hrest.
  - destruct (Strings.contains cutset a) eqn:Hin; cbn [Strings.TrimRight];
      [reflexivity | now rewrite Hin].
  - cbn [Strings.TrimRight] in *. now rewrite IH.
Qed.

Lemma TrimRight_ToLower (s : string) :
  Strings.TrimRight (Strings.ToLower s) ").,;?!:"
  = Strings.ToLower (Strings.TrimRight s ").,;?!:").
Proof.
  induction s as [|a s IH]; [reflexivity|].
  cbn [Strings.ToLower Strings.TrimRight]. rewrite IH.
  destruct (Strings.TrimRight s ").,;?!:") as [|d kept];
    cbn [Strings.ToLower].
  - rewrite contains_toLowerByte.
    destruct (Strings.contains ").,;?!:" a); reflexivity.
  - reflexivity.
Qed.

Lemma normal_idem (w : string) : normal (normal w) = normal w.
Proof.
  unfold normal.
  now rewrite TrimRight_ToLower, ToLower_idem, TrimRight_idem.
Qed.

(** X11. The switch does not see upper case or trailing punctuation: a word
    acts exactly as its lower-cased form without the trailing bytes of
    ").,;?!:" does, on every state. *)
Theorem followUpWord_normal (E : Env) (offI : Z) (w : string) (c : Ctx) :
  followUpWord E offI w c = followUpWord E offI (normal w) c.
Proof.
  unfold followUpWord; cbv zeta.
  fold (normal w). fold (normal (normal w)).
  now rewrite normal_idem.
Qed.

(** ** What FollowUp leaves alone *)

Section FollowUpFrame.

Variable E : Env.

Lemma searchYelp_keeps (c : Ctx) (e : option error) (c' : Ctx) :
  searchYelp E c = Val (e, c') ->
  e = None
  /\ lookups (world c') = lookups (world c)
  /\ User (msg c') = User (msg c)
  /\ Sentence (msg c') = Sentence (msg c)
  /\ SI (msg c') = SI (msg c)
  /\ query (MState (msg c')) = query (MState (msg c)).
Proof.
  intros Hrun.
  destruct (searchYelp_frame E c e c' Hrun) as (He & Hworld & Hmsg & _).
  destruct (frame_projections _ _ _ Hmsg) as (Hu & Hs & Hsi & Hq & _).
  rewrite Hworld. cbn [logSearch lookups]. auto 10.
Qed.

Lemma followUpWords_keeps (offI : Z) (words : list string) :
  forall (c : Ctx) (e : option error) (c' : Ctx),
    followUpWords E offI words c = Val (e, c') ->
    e = None
    /\ lookups (world c') = lookups (world c)
    /\ User (msg c') = User (msg c)
    /\ Sentence (msg c') = Sentence (msg c)
    /\ SI (msg c') = SI (msg c)
    /\ query (MState (msg c')) = query (MState (msg c)).
Proof.
  induction words as [|w ws IH]; intros c e c' Hrun; cbn [followUpWords] in Hrun.
  - injection Hrun as <- <-. auto 10.
  - destruct (followUpWord E offI w c) as [[e1 c1]|] eqn:Hword;
      cbn [bind] in Hrun; [|discriminate].
    assert (Hstep : e1 = None
                    /\ lookups (world c1) = lookups (world c)
                    /\ User (msg c1) = User (msg c)
                    /\ Sentence (msg c1) = Sentence (msg c)
                    /\ SI (msg c1) = SI (msg c)
                    /\ query (MState (msg c1)) = query (MState (msg c))).
    { destruct (followUpWord_step E offI w c) as [[_ Hsearch] | [_ Hsame]].
      - rewrite Hsearch in Hword. exact (searchYelp_keeps _ _ _ Hword).
      - destruct (Hsame e1 c1 Hword) as (-> & Hmsg & Hworld).
        rewrite Hmsg, Hworld. auto 10. }
    destruct Hstep as (-> & Hl & Hu & Hs & Hsi & Hq).
    destruct (0 <? Strings.len (resp c1)).
    + injection Hrun as <- <-. auto 10.
    + destruct (IH c1 e c' Hrun) as (He & Hl' & Hu' & Hs' & Hsi' & Hq').
      rewrite Hl', Hu', Hs', Hsi', Hq'. auto 10.
Qed.

End FollowUpFrame.

(** X12. Whenever FollowUp returns, it returns nil: none of its [return err]
    is ever taken.  It has not called the location resolver, and the user,
    the sentence, the structured input and the stored query are what they
    were. *)
Theorem FollowUp_keeps (E : Env) (c : Ctx) (e : option error) (c' : Ctx) :
  FollowUp E c = Val (e, c') ->
  e = None
  /\ lookups (world c') = lookups (world c)
  /\ User (msg c') = User (msg c)
  /\ Sentence (msg c') = Sentence (msg c)
  /\ SI (msg c') = SI (msg c)
  /\ query (MState (msg c')) = query (MState (msg c)).
Proof.
  destruct (String.eqb (location (MState (msg c))) "") eqn:Hloc.
  - apply String.eqb_eq in Hloc. rewrite (FollowUp_empty_location E c Hloc).
    intros Hrun. exact (searchYelp_keeps E _ _ _ Hrun).
  - apply String.eqb_neq in Hloc.
    destruct (businesses (MState (msg c))) as [[|b bs]|] eqn:Hbs.
    + unfold FollowUp; cbv zeta.
      replace (String.eqb (location (MState (msg c))) "") with false
        by (symmetry; now apply String.eqb_neq).
      rewrite Hbs. intros [= <- <-]. cbn. auto 10.
    + rewrite (FollowUp_known_location E c Hloc) by (rewrite Hbs; discriminate).
      apply followUpWords_keeps.
    + rewrite (FollowUp_known_location E c Hloc) by (rewrite Hbs; discriminate).
      apply followUpWords_keeps.
Qed.

Lemma FollowUp_keeps_witness :
  exists c',
    FollowUp Scenario.down
             (Scenario.turn (Scenario.tacos [Scenario.cart] 0) "phone else thanks")
      = Val (None, c')
    /\ lookups (world c') = 0%nat
    /\ query (MState (msg c')) = "tacos ".
Proof.
  eexists. split; [reflexivity|].
  destruct (FollowUp_keeps Scenario.down
              (Scenario.turn (Scenario.tacos [Scenario.cart] 0)
                             "phone else thanks")
              None _ eq_refl)
    as (_ & Hl & _ & _ & _ & Hq).
  split; [exact Hl | exact Hq].
Defined.

(** ** Run, answer by answer *)

Lemma len_zero_empty (s : string) : (Strings.len s =? 0) = true <-> s = "".
Proof.
  destruct s as [|a s]; [cbn; tauto|].
  split; intros H; [|discriminate].
  exfalso. unfold Strings.len in H. cbn [String.length] in H.
  apply Z.eqb_eq in H. lia.
Qed.

Lemma search_tail (E : Env) (c : Ctx) :
  bind (searchYelp E c)
       (fun r => let '(err, c') := r in
                 match err with
                 | Some e => Val (Some e, c')
                 | None => Val (None, c')
                 end)
  = searchYelp E c.
Proof. destruct (searchYelp E c) as [[[e|] c']|]; reflexivity. Qed.

Section RunCases.

Variable E : Env.
Variable c : Ctx.

Lemma Run_first_error (e : error) :
  lerr (firstAnswer E c) = Some e ->
  Run E c = Val (Some e, lookedUp c 1 "").
Proof.
  unfold firstAnswer. intros Herr. unfold Run, locate, storeQuery, getLocation; cbv zeta.
  cbn [msg setMsg world setWorld User SI setState setQuery].
  rewrite Herr, query_loop. reflexivity.
Qed.

Lemma Run_first_asks :
  lerr (firstAnswer E c) = None ->
  question (firstAnswer E c) <> "" ->
  Run E c
  = Val (None,
         setMsg (lookedUp c 1 (partialName (firstAnswer E c)))
                (setSentence (msg (lookedUp c 1 (partialName (firstAnswer E c))))
                             (question (firstAnswer E c)))).
Proof.
  unfold firstAnswer. intros Herr Hq. apply len_pos_nonempty in Hq.
  unfold Run, locate, storeQuery, getLocation; cbv zeta.
  cbn [msg setMsg world setWorld User SI setState setQuery].
  rewrite Herr, Hq, query_loop. unfold keepPartialName, partialName.
  destruct (loc (GetLocation E (lookups (world c)) (User (msg c)))) as [p|];
    [|reflexivity].
  destruct (dt.Name p) as [|a name] eqn:Hname; [reflexivity|].
  rewrite len_cons_pos. reflexivity.
Qed.

Lemma Run_first_silent :
  silent (firstAnswer E c) -> Run E c = Panic NilDereference.
Proof.
  unfold firstAnswer. intros (Herr & Hq & Hloc).
  unfold Run, locate, storeQuery, getLocation, locName; cbv zeta.
  cbn [msg setMsg world setWorld User SI setState setQuery].
  rewrite Herr, Hq, Hloc. reflexivity.
Qed.

Lemma Run_first_named (name : string) :
  named (firstAnswer E c) name ->
  name <> "" ->
  Run E c = searchYelp E (lookedUp c 1 name).
Proof.
  unfold firstAnswer. intros (Herr & Hq & p & Hloc & Hname) Hne.
  unfold Run, locate, storeQuery, getLocation, locName; cbv zeta.
  cbn [msg setMsg world setWorld User SI setState setQuery].
  rewrite Herr, Hq, Hloc, Hname, query_loop. cbn [Strings.len String.length bind].
  cbn [msg setMsg setLocation setState MState location].
  replace (Strings.len name =? 0) with false.
  - rewrite search_tail. reflexivity.
  - symmetry. destruct (Strings.len name =? 0) eqn:Hz; [|reflexivity].
    apply len_zero_empty in Hz. contradiction.
Qed.

(** After an answer without a name Run goes by the second answer. *)
Lemma Run_second :
  unnamed (firstAnswer E c) -> Run E c = bySecondAnswer E c.
Proof.
  unfold firstAnswer, bySecondAnswer, secondAnswer; cbv zeta.
  intros (Herr & Hq & p & Hloc & Hname).
  unfold Run, locate, storeQuery, getLocation, locName; cbv zeta.
  cbn [msg setMsg world setWorld User SI setState setQuery].
  rewrite Herr, Hq, Hloc, query_loop. cbn [bind].
  cbn [msg setMsg world setWorld User Sentence SI setState setQuery setLocation
       MState location query offset businesses lookups requests append].
  rewrite Hname.
  change (0 <? Strings.len "") with false.
  change (Strings.len "" =? 0) with true. cbv iota.
  destruct (lerr (GetLocation E (S (lookups (world c))) (User (msg c))));
    [reflexivity|].
  destruct (0 <? Strings.len
                   (question (GetLocation E (S (lookups (world c))) (User (msg c)))))
    eqn:Hq2.
  - unfold keepPartialName, partialName.
    destruct (loc (GetLocation E (S (lookups (world c))) (User (msg c))))
      as [p2|]; [|reflexivity].
    destruct (dt.Name p2) as [|a name]; [reflexivity|].
    rewrite len_cons_pos. reflexivity.
  - destruct (loc (GetLocation E (S (lookups (world c))) (User (msg c))))
      as [p2|]; cbn [bind]; [|reflexivity].
    rewrite search_tail. reflexivity.
Qed.

End RunCases.

(** The five kinds of answer, in the order in which Run tells them apart. *)
Lemma answer_cases (l : located) :
  (exists e, lerr l = Some e)
  \/ (lerr l = None /\ question l <> "")
  \/ silent l
  \/ unnamed l
  \/ (exists name, named l name /\ name <> "").
Proof.
  unfold silent, unnamed, named.
  destruct (lerr l) as [e|]; [left; now exists e|].
  destruct (question l) as [|a q]; [|right; left; split; [reflexivity | discriminate]].
  destruct (loc l) as [p|]; [|right; right; left; auto].
  destruct (dt.Name p) as [|a name] eqn:Hname.
  - right; right; right; left. repeat split. now exists p.
  - right; right; right; right. exists (String a name).
    split; [|discriminate]. repeat split. now exists p.
Qed.

Lemma search_from_zero (E : Env) (c : Ctx) (n : nat) (place : string) :
  exists c',
    searchYelp E (lookedUp c n place) = Val (None, c')
    /\ world c' = logSearch (lookedUp c n place)
    /\ offset (MState (msg c')) = 0
    /\ location (MState (msg c')) = place.
Proof.
  destruct (searchYelp_returns E (lookedUp c n place))
    as (c' & Hrun & Hworld & _ & Hl & Ho & _); [cbn; lia|].
  exists c'. auto.
Qed.

(** X13. Run panics in two situations only, both the nil dereference of
    [loc.Name]: the resolver's first answer has no error, no question and no
    location; or the first answer is a location without a name and the
    second answer is such an empty one. *)
Theorem Run_panics_iff (E : Env) (c : Ctx) (p : panic) :
  Run E c = Panic p
  <-> p = NilDereference
      /\ (silent (firstAnswer E c)
          \/ (unnamed (firstAnswer E c) /\ silent (secondAnswer E c))).
Proof.
  split.
  - intros Hrun.
    destruct (answer_cases (firstAnswer E c))
      as [(e & Herr) | [(Herr & Hq) | [Hsilent | [Hun | (name & Hnamed & Hne)]]]].
    + rewrite (Run_first_error E c e Herr) in Hrun. discriminate.
    + rewrite (Run_first_asks E c Herr Hq) in Hrun. discriminate.
    + rewrite (Run_first_silent E c Hsilent) in Hrun.
      injection Hrun as <-. auto.
    + rewrite (Run_second E c Hun) in Hrun. unfold bySecondAnswer in Hrun.
      cbv zeta in Hrun. unfold silent.
      destruct (lerr (secondAnswer E c)); [discriminate|].
      destruct (question (secondAnswer E c)) as [|a q];
        [|rewrite len_cons_pos in Hrun; discriminate].
      change (0 <? Strings.len "") with false in Hrun. cbv iota in Hrun.
      destruct (loc (secondAnswer E c)) as [p2|].
      * destruct (search_from_zero E c 2 (dt.Name p2)) as (c' & Hs & _).
        rewrite Hs in Hrun. discriminate.
      * injection Hrun as <-. auto 10.
    + rewrite (Run_first_named E c name Hnamed Hne) in Hrun.
      destruct (search_from_zero E c 1 name) as (c' & Hs & _).
      rewrite Hs in Hrun. discriminate.
  - intros (-> & [Hsilent | (Hun & Herr & Hq & Hloc)]).
    + now apply Run_first_silent.
    + rewrite (Run_second E c Hun). unfold bySecondAnswer; cbv zeta.
      rewrite Herr, Hq, Hloc. reflexivity.
Qed.

(** X14. Run returns an error exactly when the resolver returned it, on the
    first lookup or on the second one that follows a location without a
    name; then nothing was sent to the provider, the response buffer is
    untouched, and the state is the fresh one with the new query and no
    location. *)
Theorem Run_error_iff (E : Env) (c : Ctx) (e : error) (c' : Ctx) :
  Run E c = Val (Some e, c')
  <-> (lerr (firstAnswer E c) = Some e /\ c' = lookedUp c 1 "")
      \/ (unnamed (firstAnswer E c)
          /\ lerr (secondAnswer E c) = Some e /\ c' = lookedUp c 2 "").
Proof.
  split.
  - intros Hrun.
    destruct (answer_cases (firstAnswer E c))
      as [(e1 & Herr) | [(Herr & Hq) | [Hsilent | [Hun | (name & Hnamed & Hne)]]]].
    + rewrite (Run_first_error E c e1 Herr) in Hrun.
      injection Hrun as <- <-. left. auto.
    + rewrite (Run_first_asks E c Herr Hq) in Hrun. discriminate.
    + rewrite (Run_first_silent E c Hsilent) in Hrun. discriminate.
    + right. split; [exact Hun|].
      rewrite (Run_second E c Hun) in Hrun. unfold bySecondAnswer in Hrun.
      cbv zeta in Hrun.
      destruct (lerr (secondAnswer E c)) as [e2|].
      * injection Hrun as <- <-. auto.
      * exfalso.
        destruct (0 <? Strings.len (question (secondAnswer E c)));
          [discriminate|].
        destruct (loc (secondAnswer E c)) as [p2|]; [|discriminate].
        destruct (search_from_zero E c 2 (dt.Name p2)) as (c2 & Hs & _).
        rewrite Hs in Hrun. discriminate.
    + exfalso. rewrite (Run_first_named E c name Hnamed Hne) in Hrun.
      destruct (search_from_zero E c 1 name) as (c1 & Hs & _).
      rewrite Hs in Hrun. discriminate.
  - intros [(Herr & ->) | (Hun & Herr & ->)].
    + now apply Run_first_error.
    + rewrite (Run_second E c Hun). unfold bySecondAnswer; cbv zeta.
      now rewrite Herr.
Qed.

(** X15. Whenever Run returns, the stored offset is 0, the resolver has
    been called once or twice, and the provider has received nothing or
    one request: the one for the new query at the stored location with
    limit 1. *)
Theorem Run_restarts_at_zero (E : Env) (c : Ctx) (e : option error) (c' : Ctx) :
  Run E c = Val (e, c') ->
  offset (MState (msg c')) = 0
  /\ (lookups (world c') = S (lookups (world c))
      \/ lookups (world c') = S (S (lookups (world c))))
  /\ (requests (world c') = requests (world c)
      \/ requests (world c')
         = (requests (world c)
            ++ [searchRequest (spaced (Objects (SI (msg c))))
                              (location (MState (msg c'))) 0])%list).
Proof.
  intros Hrun.
  assert (Hsearch : forall n place,
            (n = 1 \/ n = 2)%nat ->
            searchYelp E (lookedUp c n place) = Val (e, c') ->
            offset (MState (msg c')) = 0
            /\ (lookups (world c') = S (lookups (world c))
                \/ lookups (world c') = S (S (lookups (world c))))
            /\ (requests (world c') = requests (world c)
                \/ requests (world c')
                   = (requests (world c)
                      ++ [searchRequest (spaced (Objects (SI (msg c))))
                                        (location (MState (msg c'))) 0])%list)).
  { intros n place Hn Hs.
    destruct (search_from_zero E c n place) as (c1 & Hs1 & Hworld & Ho & Hl).
    rewrite Hs1 in Hs. injection Hs as <- <-.
    split; [exact Ho|]. rewrite Hworld, Hl. cbn.
    split; [destruct Hn as [-> | ->]; auto | right; reflexivity]. }
  destruct (answer_cases (firstAnswer E c))
    as [(e1 & Herr) | [(Herr & Hq) | [Hsilent | [Hun | (name & Hnamed & Hne)]]]].
  - rewrite (Run_first_error E c e1 Herr) in Hrun.
    injection Hrun as <- <-. cbn. auto.
  - rewrite (Run_first_asks E c Herr Hq) in Hrun.
    injection Hrun as <- <-. cbn. auto.
  - rewrite (Run_first_silent E c Hsilent) in Hrun. discriminate.
  - rewrite (Run_second E c Hun) in Hrun. unfold bySecondAnswer in Hrun.
    cbv zeta in Hrun.
    destruct (lerr (secondAnswer E c)) as [e2|].
    + injection Hrun as <- <-. cbn. auto.
    + destruct (0 <? Strings.len (question (secondAnswer E c))).
      * injection Hrun as <- <-. cbn. auto.
      * destruct (loc (secondAnswer E c)) as [p2|]; [|discriminate].
        apply (Hsearch 2%nat (dt.Name p2)); [auto | exact Hrun].
  - rewrite (Run_first_named E c name Hnamed Hne) in Hrun.
    apply (Hsearch 1%nat name); [auto | exact Hrun].
Qed.

Lemma Run_restarts_at_zero_witness :
  exists c',
    Run (Scenario.serving [Scenario.torchys]) Scenario.findTacos = Val (None, c')
    /\ offset (MState (msg c')) = 0.
Proof.
  eexists. split; [reflexivity|].
  exact (proj1 (Run_restarts_at_zero (Scenario.serving [Scenario.torchys])
                  Scenario.findTacos None _ eq_refl)).
Defined.

Lemma searchYelp_panics_only_below_zero_witness :
  searchYelp (Scenario.serving [Scenario.torchys])
             (Scenario.turn (Scenario.tacos [] (-1)) "")
  = Panic IndexOutOfRange.
Proof.
  apply (proj2 (searchYelp_panics_only_below_zero
                  (Scenario.serving [Scenario.torchys])
                  (Scenario.turn (Scenario.tacos [] (-1)) "")
                  IndexOutOfRange ltac:(cbn; lia))).
  split; [reflexivity|]. split; [cbn; lia|].
  exists {| Businesses := [Scenario.torchys] |}.
  split; [reflexivity | discriminate].
Defined.

Lemma Run_panics_iff_witness :
  Run (Dialogs.env [Scenario.torchys] Dialogs.silent) Scenario.findTacos
  = Panic NilDereference.
Proof.
  apply (proj2 (Run_panics_iff (Dialogs.env [Scenario.torchys] Dialogs.silent)
                  Scenario.findTacos NilDereference)).
  split; [reflexivity|]. left. repeat split.
Defined.

Lemma Run_error_iff_witness :
  Run (Dialogs.env [Scenario.torchys] Dialogs.lost) Scenario.findTacos
  = Val (Some ErrLocation, lookedUp Scenario.findTacos 1 "").
Proof.
  apply (proj2 (Run_error_iff (Dialogs.env [Scenario.torchys] Dialogs.lost)
                  Scenario.findTacos ErrLocation
                  (lookedUp Scenario.findTacos 1 ""))).
  left. split; reflexivity.
Defined.

(** X16. When the first answer is a location with a name, Run is one search
    on the fresh state: it sends the request for the spaced tokens at that
    name with limit 1, after one lookup, and what was stored before the
    turn plays no part. *)
Theorem Run_with_named_location (E : Env) (c : Ctx) (name : string) :
  named (firstAnswer E c) name ->
  name <> "" ->
  Run E c = searchYelp E (lookedUp c 1 name)
  /\ exists c',
       Run E c = Val (None, c')
       /\ location (MState (msg c')) = name
       /\ lookups (world c') = S (lookups (world c))
       /\ requests (world c')
          = (requests (world c)
             ++ [searchRequest (spaced (Objects (SI (msg c)))) name 0])%list.
Proof.
  intros Hnamed Hne.
  rewrite (Run_first_named E c name Hnamed Hne). split; [reflexivity|].
  destruct (search_from_zero E c 1 name) as (c' & Hs & Hworld & _ & Hl).
  exists c'. split; [exact Hs|]. split; [exact Hl|].
  rewrite Hworld. split; reflexivity.
Qed.

Lemma Run_with_named_location_witness :
  exists c',
    Run (Scenario.serving [Scenario.torchys]) Scenario.findTacos = Val (None, c')
    /\ location (MState (msg c')) = "Austin"
    /\ requests (world c') = [searchRequest "tacos " "Austin" 0].
Proof.
  destruct (Run_with_named_location (Scenario.serving [Scenario.torchys])
              Scenario.findTacos "Austin")
    as (_ & c' & Hrun & Hl & _ & Hreqs).
  - repeat split. now exists {| dt.Name := "Austin" |}.
  - discriminate.
  - exists c'. split; [exact Hrun|]. split; [exact Hl | exact Hreqs].
Defined.

(** X17. When the first answer is a location without a name and the second
    answer comes with a question, Run writes that question into the
    response buffer, stores the partial name of the second answer if there
    is one, leaves the sentence alone, sends nothing to the provider and
    returns nil after two lookups. *)
Theorem Run_second_question (E : Env) (c : Ctx) :
  unnamed (firstAnswer E c) ->
  lerr (secondAnswer E c) = None ->
  question (secondAnswer E c) <> "" ->
  Run E c
  = Val (None,
         setResp (lookedUp c 2 (partialName (secondAnswer E c)))
                 (question (secondAnswer E c))).
Proof.
  intros Hun Herr Hq. rewrite (Run_second E c Hun).
  unfold bySecondAnswer; cbv zeta. rewrite Herr.
  apply len_pos_nonempty in Hq. now rewrite Hq.
Qed.

Lemma Run_second_question_witness :
  exists c',
    Run Scenario.askingLater Scenario.findTacos = Val (None, c')
    /\ resp c' = "Where are you?"
    /\ Sentence (msg c') = "find tacos"
    /\ world c' = {| requests := []; lookups := 2 |}.
Proof.
  eexists. split.
  - apply (Run_second_question Scenario.askingLater Scenario.findTacos).
    + repeat split. now exists {| dt.Name := "" |}.
    + reflexivity.
    + discriminate.
  - repeat split.
Defined.

(** X18. The location dialog.  When Run's first answer is a question with
    no partial name, Run returns nil with the location still empty; the
    FollowUp of the next turn, whatever the response buffer holds, stores
    the user's sentence as the location and sends the search that Run held
    back: the spaced tokens, that sentence, limit 1. *)
Theorem location_dialog (E : Env) (c : Ctx) (sentence buffer : string) :
  lerr (firstAnswer E c) = None ->
  question (firstAnswer E c) <> "" ->
  partialName (firstAnswer E c) = "" ->
  exists c1 c2,
    Run E c = Val (None, c1)
    /\ requests (world c1) = requests (world c)
    /\ FollowUp E (nextTurn c1 sentence buffer) = Val (None, c2)
    /\ location (MState (msg c2)) = sentence
    /\ requests (world c2)
       = (requests (world c)
          ++ [searchRequest (spaced (Objects (SI (msg c)))) sentence 0])%list.
Proof.
  intros Herr Hq Hhint.
  pose proof (Run_first_asks E c Herr Hq) as Hrun. rewrite Hhint in Hrun.
  eexists. 
  destruct (FollowUp_on_empty_location E
              (nextTurn
                 (setMsg (lookedUp c 1 "")
                    (setSentence (msg (lookedUp c 1 ""))
                                 (question (firstAnswer E c))))
                 sentence buffer))
    as (c2 & Hfollow & Hl & Hreqs); [reflexivity | cbn; lia|].
  exists c2. split; [exact Hrun|]. split; [reflexivity|].
  split; [exact Hfollow|]. split; [exact Hl | exact Hreqs].
Qed.

Lemma location_dialog_witness :
  exists c1 c2,
    Run Scenario.asking Scenario.findTacos = Val (None, c1)
    /\ FollowUp Scenario.asking (nextTurn c1 "Austin" "") = Val (None, c2)
    /\ requests (world c2) = [searchRequest "tacos " "Austin" 0].
Proof.
  destruct (location_dialog Scenario.asking Scenario.findTacos "Austin" ""
              eq_refl ltac:(discriminate) eq_refl)
    as (c1 & c2 & Hrun & _ & Hfollow & _ & Hreqs).
  exists c1, c2. split; [exact Hrun|]. split; [exact Hfollow | exact Hreqs].
Defined.

(** X19. When Run's first answer is a question together with a partial
    name, Run stores that name as the location and the empty list as the
    businesses; the FollowUp of the next turn then finds the location known
    and the list empty: whatever the user answers, it responds
    "I couldn't find anything like that" and no search is sent. *)
Theorem partial_name_ends_dialog (E : Env) (c : Ctx) (sentence buffer : string) :
  lerr (firstAnswer E c) = None ->
  question (firstAnswer E c) <> "" ->
  partialName (firstAnswer E c) <> "" ->
  exists c1,
    Run E c = Val (None, c1)
    /\ location (MState (msg c1)) = partialName (firstAnswer E c)
    /\ requests (world c1) = requests (world c)
    /\ FollowUp E (nextTurn c1 sentence buffer)
       = Val (None, setResp (nextTurn c1 sentence buffer)
                            "I couldn't find anything like that").
Proof.
  intros Herr Hq Hhint. eexists.
  split; [exact (Run_first_asks E c Herr Hq)|].
  split; [reflexivity|]. split; [reflexivity|].
  unfold FollowUp; cbv zeta.
  cbn [nextTurn msg setResp setMsg setSentence lookedUp MState setState location
       businesses].
  destruct (String.eqb (partialName (firstAnswer E c)) "") eqn:Heq;
    [apply String.eqb_eq in Heq; contradiction|].
  reflexivity.
Qed.

Lemma partial_name_ends_dialog_witness :
  exists c1,
    Run (Dialogs.env [Scenario.torchys] Dialogs.whichCity) Scenario.findTacos
      = Val (None, c1)
    /\ location (MState (msg c1)) = "Texas"
    /\ FollowUp (Dialogs.env [Scenario.torchys] Dialogs.whichCity)
                (nextTurn c1 "Austin" "")
       = Val (None, setResp (nextTurn c1 "Austin" "")
                            "I couldn't find anything like that").
Proof.
  destruct (partial_name_ends_dialog
              (Dialogs.env [Scenario.torchys] Dialogs.whichCity)
              Scenario.findTacos "Austin" ""
              eq_refl ltac:(discriminate) ltac:(discriminate))
    as (c1 & Hrun & Hl & _ & Hfollow).
  exists c1. split; [exact Hrun|]. split; [exact Hl | exact Hfollow].
Defined.

Lemma accessors_unchecked_witness :
  getRating (Scenario.serving []) (msg (Scenario.turn (Scenario.tacos [Scenario.torchys] 1) "")) 1
    = Panic IndexOutOfRange
  /\ getURL (msg (Scenario.turn (Scenario.tacos [Scenario.torchys] 1) "")) 1
     = Panic IndexOutOfRange
  /\ getPhone (msg (Scenario.turn (Scenario.tacos [Scenario.torchys] 1) "")) 1
     = Panic IndexOutOfRange
  /\ getAddress (msg (Scenario.turn (Scenario.tacos [Scenario.torchys] 1) "")) 1
     = Panic IndexOutOfRange.
Proof.
  apply (accessors_unchecked (Scenario.serving [])
           (msg (Scenario.turn (Scenario.tacos [Scenario.torchys] 1) "")) 1
           [Scenario.torchys] eq_refl).
  right. cbn. lia.
Defined.

(** ** The query of a turn *)

Lemma Run_outcome (E : Env) (c : Ctx) :
  (exists e c',
     Run E c = Val (e, c')
     /\ query (MState (msg c')) = spaced (Objects (SI (msg c))))
  \/ (Run E c = Panic NilDereference
      /\ (silent (firstAnswer E c)
          \/ (unnamed (firstAnswer E c) /\ silent (secondAnswer E c)))).
Proof.
  assert (Hsearch : forall n place,
            exists e c',
              searchYelp E (lookedUp c n place) = Val (e, c')
              /\ query (MState (msg c')) = spaced (Objects (SI (msg c)))).
  { intros n place.
    destruct (searchYelp_returns E (lookedUp c n place))
      as (c' & Hrun & _ & Hq & _); [cbn; lia|].
    exists None, c'. split; [exact Hrun | exact Hq]. }
  destruct (answer_cases (firstAnswer E c))
    as [(e1 & Herr) | [(Herr & Hq) | [Hsilent | [Hun | (name & Hnamed & Hne)]]]].
  - left. rewrite (Run_first_error E c e1 Herr). eexists _, _.
    split; reflexivity.
  - left. rewrite (Run_first_asks E c Herr Hq). eexists _, _.
    split; reflexivity.
  - right. split; [now apply Run_first_silent | now left].
  - rewrite (Run_second E c Hun). unfold bySecondAnswer; cbv zeta.
    destruct (lerr (secondAnswer E c)) as [e2|] eqn:Herr2.
    + left. eexists _, _. split; reflexivity.
    + destruct (question (secondAnswer E c)) as [|a q] eqn:Hq2.
      * change (0 <? Strings.len "") with false. cbv iota.
        destruct (loc (secondAnswer E c)) as [p2|] eqn:Hloc2.
        -- left. apply Hsearch.
        -- right. split; [reflexivity|]. right. split; [exact Hun|].
           repeat split; assumption.
      * rewrite len_cons_pos. left. eexists _, _. split; reflexivity.
  - left. rewrite (Run_first_named E c name Hnamed Hne). apply Hsearch.
Qed.

(** C9. Run stores the query before it asks for the location: the object
    tokens in their order, each followed by one space, built from the empty
    string whatever query was stored before.  Every Run that returns, with
    or without an error, returns with that query stored.  And Run does
    return, unless the resolver answers with no error, no question and no
    location (at once, or on the second lookup after a location without a
    name), in which case it panics on the nil dereference, after the query
    was stored. *)
Theorem Run_builds_query (E : Env) (c : Ctx) :
  query (MState (msg (storeQuery c))) = spaced (Objects (SI (msg c)))
  /\ Run E c = locate E (storeQuery c)
  /\ (forall e c',
        Run E c = Val (e, c') ->
        query (MState (msg c')) = spaced (Objects (SI (msg c))))
  /\ ((exists e c', Run E c = Val (e, c'))
      \/ (Run E c = Panic NilDereference
          /\ (silent (firstAnswer E c)
              \/ (unnamed (firstAnswer E c) /\ silent (secondAnswer E c))))).
Proof.
  split; [|split; [reflexivity|split]].
  - unfold storeQuery; cbv zeta.
    cbn [msg setMsg SI setState setQuery MState query].
    rewrite query_loop. reflexivity.
  - intros e c' Hrun.
    destruct (Run_outcome E c) as [(e0 & c0 & Hrun0 & Hq) | (Hpanic & _)].
    + rewrite Hrun in Hrun0. injection Hrun0 as <- <-. exact Hq.
    + rewrite Hrun in Hpanic. discriminate.
  - destruct (Run_outcome E c) as [(e0 & c0 & Hrun0 & _) | Hpanic].
    + left. now exists e0, c0.
    + right. exact Hpanic.
Qed.

Lemma Run_builds_query_witness :
  exists c',
    Run (Scenario.serving [Scenario.torchys]) Scenario.findTacos = Val (None, c')
    /\ query (MState (msg c')) = "tacos ".
Proof.
  eexists. split; [reflexivity|].
  destruct (Run_builds_query (Scenario.serving [Scenario.torchys])
              Scenario.findTacos) as (_ & _ & Hquery & _).
  exact (Hquery None _ eq_refl).
Defined.

(** Rounding to binary64 at and above 2^53: every second integer from
    2^53, every fourth from 2^54, ties to the even significand. *)
Example round_above_2_53 :
  Float64.round (2 ^ 53) = 2 ^ 53
  /\ Float64.round (2 ^ 53 + 1) = 2 ^ 53
  /\ Float64.round (2 ^ 53 + 2) = 2 ^ 53 + 2
  /\ Float64.round (2 ^ 53 + 3) = 2 ^ 53 + 4
  /\ Float64.round (2 ^ 54 + 2) = 2 ^ 54
  /\ Float64.round (2 ^ 54 + 3) = 2 ^ 54 + 4
  /\ Float64.round (2 ^ 54 + 6) = 2 ^ 54 + 8
  /\ Float64.round (- (2 ^ 53 + 1)) = - 2 ^ 53.
Proof. vm_compute. repeat split. Qed.
